(** * ModalDialog: state reconciliation and dismissal protocol

    A shallow embedding of [ModalDialog.tsx] (the component) and of the part
    of [App.tsx] that owns the controlled state.  The component is a React
    function component; its hooks are modelled by explicit state passing:

    - [useState] / the ancestor's [useState] are boolean cells of [World];
    - [useRef] is a nullable pointer to the one dialog element of the
      instance, whose state lives in the [dom] cell of [World];
    - [useEffect] is a pair (body, clean-up) with the dependency values of
      the last run stored in [World]; a commit re-runs an effect only when
      its dependencies changed, clean-up first;
    - event listeners are the closures of the source, named after them, with
      the variables they capture as arguments.

    The native dialog element is platform code; it is modelled from the
    collaborator interface the specification gives for it.  What the model
    takes for granted about the platform and the ancestor:

    - a key press cancels an open dialog exactly when its [key] value is
      "Escape" and no listener prevented the default, whatever its [code]
      is; a click has no default action on the element;
    - the functions an ancestor hands over ([onClose], callbacks added
      through the ref) are opaque: running one is recorded in the trace and
      changes nothing else;
    - the ancestor of a controlled dialog is [App]: the [setIsOpen] prop is
      the setter of the state cell it passes as [isOpen];
    - the [options] of a listener are reduced to the capture flag; the
      development-time assertion on the accessible name and the ARIA
      attributes it reads play no part in the state and are left out. *)

From Stdlib Require Import String List Bool Arith Lia.
Import ListNotations.
Open Scope string_scope.

(** ** Identities of functions handed over by the ancestor *)

(** An ancestor-supplied function ([onClose], a listener callback).  The
    component never looks inside; the model records its invocations. *)
Definition Callback := nat.

(** The function an ancestor passes as the [setIsOpen] prop: in [App.tsx],
    the setter of its [useState(false)]. *)
Inductive AncestorSetter :=
| App_setIsOpen.

(** The two state setters [setIsOpen] can be: the one received in the
    [setIsOpen] prop and the component's own [useState] setter. *)
Inductive Setter :=
| FromProps (f : AncestorSetter)
| setUncontrolledOpen.

Definition Setter_eqb (a b : Setter) : bool :=
  match a, b with
  | FromProps App_setIsOpen, FromProps App_setIsOpen => true
  | setUncontrolledOpen, setUncontrolledOpen => true
  | _, _ => false
  end.

(** ** Props *)

(** [ModalDialogIsOpenProps]: both of [isOpen], [setIsOpen], or neither. *)
Inductive ModalDialogIsOpenProps :=
| ControlledProps (isOpen : bool) (setIsOpen : AncestorSetter)
| UncontrolledProps.

Record ModalDialogProps := mkProps {
  isOpenProps : ModalDialogIsOpenProps;
  shouldLightDismiss : option bool;
  initialOpen : option bool;
  onClose : option Callback
}.

(** The destructured props [isOpen: controlledOpen] and
    [setIsOpen: setControlledOpen]. *)
Definition controlledOpen (p : ModalDialogProps) : option bool :=
  match isOpenProps p with
  | ControlledProps b _ => Some b
  | UncontrolledProps => None
  end.

Definition setControlledOpen (p : ModalDialogProps) : option Setter :=
  match isOpenProps p with
  | ControlledProps _ f => Some (FromProps f)
  | UncontrolledProps => None
  end.

(** JavaScript's [a ?? b] and a destructuring default [x = d]. *)
Definition nullish {A} (a : option A) (b : A) : A :=
  match a with Some x => x | None => b end.

(** ** Events *)

(** What a click or key event that reaches the dialog can have as target. *)
Inductive EventTarget :=
| TheDialog                       (* the dialog element itself, its backdrop included *)
| Descendant (nodeName : string)  (* an element rendered inside the dialog *)
| NonElement.                     (* a target that is not an [Element] *)

Definition instanceofElement (t : EventTarget) : bool :=
  match t with
  | NonElement => false
  | _ => true
  end.

Definition nodeName (t : EventTarget) : string :=
  match t with
  | TheDialog => "DIALOG"
  | Descendant n => n
  | NonElement => "#text"          (* never read: [instanceof Element] fails first *)
  end.

Record Event := mkEvent {
  type : string;
  target : EventTarget;
  key : option string;           (* [KeyboardEvent.key]; absent on other events *)
  code : option string;          (* [KeyboardEvent.code]; absent on other events *)
  defaultPrevented : bool;
  propagationStopped : bool
}.

Definition clickEvent (t : EventTarget) : Event :=
  mkEvent "click" t None None false false.

(** A key press with key value [k] on the physical key [c]. *)
Definition keyEvent (t : EventTarget) (k c : string) : Event :=
  mkEvent "keydown" t (Some k) (Some c) false false.

(** A key press whose key value and code carry the same name [c], as for
    the Escape key of a keyboard that does not remap it. *)
Definition keydownEvent (t : EventTarget) (c : string) : Event :=
  keyEvent t c c.

(** The [close] event the element fires when it stops presenting. *)
Definition closeEvent : Event :=
  mkEvent "close" TheDialog None None false false.

(** ** The dialog element *)

(** The closures the component registers, and the callbacks an ancestor
    registers through the ref.  A closure carries what it captured. *)
Inductive EventListener :=
| LightDismiss (setIsOpen : Setter)     (* the closure [lightDismiss] *)
| CloseOnEscape (setIsOpen : Setter)    (* the closure [closeOnEscape] *)
| AncestorListener (cb : Callback).

Definition EventListener_eqb (a b : EventListener) : bool :=
  match a, b with
  | LightDismiss s, LightDismiss s' => Setter_eqb s s'
  | CloseOnEscape s, CloseOnEscape s' => Setter_eqb s s'
  | AncestorListener c, AncestorListener c' => Nat.eqb c c'
  | _, _ => false
  end.

Record Registration := mkReg {
  reg_name : string;
  reg_listener : EventListener;
  reg_capture : bool
}.

Definition Registration_eqb (a b : Registration) : bool :=
  String.eqb (reg_name a) (reg_name b)
  && EventListener_eqb (reg_listener a) (reg_listener b)
  && Bool.eqb (reg_capture a) (reg_capture b).

Record HTMLDialogElement := mkDialog {
  open : bool;
  listeners : list Registration;
  closeEvents : nat               (* [close] events fired and not yet delivered *)
}.

(** A reference to the dialog element of the instance; [option DialogPtr]
    is [HTMLDialogElement | null]. *)
Inductive DialogPtr := the_dialog.

(** ** The facade and the world *)

(** What the object built in [useImperativeHandle] closes over. *)
Record ModalDialogRef := mkRef {
  ref_isOpen : bool;
  ref_setIsOpen : Setter
}.

(** Everything observable from outside the component, in order. *)
Inductive Obs :=
| NativeShowModal
| NativeClose
| NativeCancel                         (* the platform closed the dialog by itself *)
| NativeAddEventListener (name : string)
| NativeRemoveEventListener (name : string)
| PreventDefault
| StopPropagation
| OnClose (cb : Callback)              (* the [onClose] prop was invoked *)
| ListenerCalled (cb : Callback).      (* a listener added through the ref ran *)

Definition Obs_eqb (a b : Obs) : bool :=
  match a, b with
  | NativeShowModal, NativeShowModal => true
  | NativeClose, NativeClose => true
  | NativeCancel, NativeCancel => true
  | NativeAddEventListener n, NativeAddEventListener m => String.eqb n m
  | NativeRemoveEventListener n, NativeRemoveEventListener m => String.eqb n m
  | PreventDefault, PreventDefault => true
  | StopPropagation, StopPropagation => true
  | OnClose c, OnClose d => Nat.eqb c d
  | ListenerCalled c, ListenerCalled d => Nat.eqb c d
  | _, _ => false
  end.

Record World := mkWorld {
  app_isOpen : bool;                   (* App: [useState(false)] *)
  dom : HTMLDialogElement;             (* the element [dialogRef] points to *)
  props : ModalDialogProps;            (* what App passes; once settled, the props
                                          of the last render *)
  uncontrolledOpen : bool;             (* [useState(initialOpen)] *)
  dialogRef : option DialogPtr;        (* [useRef<HTMLDialogElement>(null)] *)
  syncEffect : option (bool * option DialogPtr);
    (* sync effect: last [isOpen] dependency, [dialog] captured by its clean-up *)
  listenerEffect : option (bool * Setter * option DialogPtr);
    (* listener effect: last dependencies, [dialog] captured by its clean-up *)
  forwardedRef : option ModalDialogRef; (* [forwardedRef.current] *)
  trace : list Obs
}.

Definition with_app_isOpen (v : bool) (w : World) : World :=
  mkWorld v (dom w) (props w) (uncontrolledOpen w) (dialogRef w)
          (syncEffect w) (listenerEffect w) (forwardedRef w) (trace w).

Definition with_dom (d : HTMLDialogElement) (w : World) : World :=
  mkWorld (app_isOpen w) d (props w) (uncontrolledOpen w) (dialogRef w)
          (syncEffect w) (listenerEffect w) (forwardedRef w) (trace w).

Definition with_props (p : ModalDialogProps) (w : World) : World :=
  mkWorld (app_isOpen w) (dom w) p (uncontrolledOpen w) (dialogRef w)
          (syncEffect w) (listenerEffect w) (forwardedRef w) (trace w).

Definition with_uncontrolledOpen (v : bool) (w : World) : World :=
  mkWorld (app_isOpen w) (dom w) (props w) v (dialogRef w)
          (syncEffect w) (listenerEffect w) (forwardedRef w) (trace w).

Definition with_dialogRef (r : option DialogPtr) (w : World) : World :=
  mkWorld (app_isOpen w) (dom w) (props w) (uncontrolledOpen w) r
          (syncEffect w) (listenerEffect w) (forwardedRef w) (trace w).

Definition with_syncEffect (e : option (bool * option DialogPtr)) (w : World) : World :=
  mkWorld (app_isOpen w) (dom w) (props w) (uncontrolledOpen w) (dialogRef w)
          e (listenerEffect w) (forwardedRef w) (trace w).

Definition with_listenerEffect (e : option (bool * Setter * option DialogPtr))
           (w : World) : World :=
  mkWorld (app_isOpen w) (dom w) (props w) (uncontrolledOpen w) (dialogRef w)
          (syncEffect w) e (forwardedRef w) (trace w).

Definition with_forwardedRef (r : option ModalDialogRef) (w : World) : World :=
  mkWorld (app_isOpen w) (dom w) (props w) (uncontrolledOpen w) (dialogRef w)
          (syncEffect w) (listenerEffect w) r (trace w).

Definition log (o : Obs) (w : World) : World :=
  mkWorld (app_isOpen w) (dom w) (props w) (uncontrolledOpen w) (dialogRef w)
          (syncEffect w) (listenerEffect w) (forwardedRef w) (trace w ++ [o]).

(** ** A state monad with exceptions *)

Inductive DOMException := InvalidStateError.

Inductive Result (A : Type) :=
| Ok (a : A)
| Throw (e : DOMException).
Arguments Ok {A} a.
Arguments Throw {A} e.

Definition M (A : Type) := World -> Result (A * World).

Definition ret {A} (a : A) : M A := fun w => Ok (a, w).

Definition bind {A B} (m : M A) (k : A -> M B) : M B :=
  fun w => match m w with
           | Ok (a, w') => k a w'
           | Throw e => Throw e
           end.

Definition throw {A} (e : DOMException) : M A := fun _ => Throw e.

Definition gets {A} (f : World -> A) : M A := fun w => Ok (f w, w).

Definition modify (f : World -> World) : M unit := fun w => Ok (tt, f w).

Declare Scope m_scope.
Delimit Scope m_scope with m.
Notation "x <- m ;; k" := (bind m (fun x => k))
  (at level 61, m at next level, right associativity) : m_scope.
Notation "m ;; k" := (bind m (fun _ => k))
  (at level 61, right associativity) : m_scope.
Open Scope m_scope.

(** The world an action leaves, when it does not throw. *)
Definition exec {A} (m : M A) (w : World) : Result World :=
  match m w with
  | Ok (_, w') => Ok w'
  | Throw e => Throw e
  end.

(** ** The native dialog element *)

(** Modelled from the spec: the platform's dialog element is not part of the
    repository.  Its interface is the one the specification lists for the
    native modal dialog primitive: a boolean open-status read, a "present
    modally" command that errors if already presenting, an idempotent close
    command that notifies with a [close] event, and a cancel-key default
    action.  Listener registration follows the DOM: a registration that is
    already present is not added twice. *)
Definition native_open (_ : DialogPtr) : M bool :=
  gets (fun w => open (dom w)).

(** Modelled from the spec: "present modally" (errors if already presenting). *)
Definition native_showModal (_ : DialogPtr) : M unit :=
  fun w =>
    let d := dom w in
    if open d then Throw InvalidStateError
    else Ok (tt, log NativeShowModal
                     (with_dom (mkDialog true (listeners d) (closeEvents d)) w)).

(** Modelled from the spec: the element stops presenting and fires [close]. *)
Definition close_element (d : HTMLDialogElement) : HTMLDialogElement :=
  if open d then mkDialog false (listeners d) (S (closeEvents d)) else d.

(** Modelled from the spec: "close" (idempotent). *)
Definition native_close (_ : DialogPtr) : M unit :=
  modify (fun w => log NativeClose (with_dom (close_element (dom w)) w)).

Definition registered (r : Registration) (ls : list Registration) : bool :=
  existsb (Registration_eqb r) ls.

Definition register (r : Registration) (ls : list Registration) : list Registration :=
  if registered r ls then ls else (ls ++ [r])%list.

Fixpoint unregister (r : Registration) (ls : list Registration) : list Registration :=
  match ls with
  | [] => []
  | x :: rest => if Registration_eqb r x then rest else x :: unregister r rest
  end.

(** Modelled from the spec: DOM [addEventListener] on the element. *)
Definition native_addEventListener (name : string) (l : EventListener)
           (options : option bool) (_ : DialogPtr) : M unit :=
  modify (fun w =>
    let d := dom w in
    let r := mkReg name l (nullish options false) in
    log (NativeAddEventListener name)
        (with_dom (mkDialog (open d) (register r (listeners d)) (closeEvents d)) w)).

(** Modelled from the spec: DOM [removeEventListener] on the element. *)
Definition native_removeEventListener (name : string) (l : EventListener)
           (options : option bool) (_ : DialogPtr) : M unit :=
  modify (fun w =>
    let d := dom w in
    let r := mkReg name l (nullish options false) in
    log (NativeRemoveEventListener name)
        (with_dom (mkDialog (open d) (unregister r (listeners d)) (closeEvents d)) w)).

(** Optional chaining on a nullable element: [dialog?.method(...)]. *)
Definition optchain (dialog : option DialogPtr) (method : DialogPtr -> M unit) : M unit :=
  match dialog with
  | Some d => method d
  | None => ret tt
  end.

(** ** The component: [ModalDialog.tsx] *)

(** [function safelyOpenDialogAsModal(dialog: HTMLDialogElement | null)] *)
Definition safelyOpenDialogAsModal (dialog : option DialogPtr) : M unit :=
  match dialog with
  | Some d =>
      o <- native_open d ;;
      if negb o then native_showModal d else ret tt
  | None => ret tt
  end.

(** Calling a state setter writes the cell it belongs to; the render that
    follows reads it. *)
Definition callSetter (s : Setter) (value : bool) : M unit :=
  match s with
  | FromProps App_setIsOpen => modify (with_app_isOpen value)
  | setUncontrolledOpen => modify (with_uncontrolledOpen value)
  end.

Definition preventDefault (ev : Event) : M Event :=
  modify (log PreventDefault) ;;
  ret (mkEvent (type ev) (target ev) (key ev) (code ev) true (propagationStopped ev)).

Definition stopPropagation (ev : Event) : M Event :=
  modify (log StopPropagation) ;;
  ret (mkEvent (type ev) (target ev) (key ev) (code ev) (defaultPrevented ev) true).

(** [function handleClose(event)], closing over [setIsOpen]. *)
Definition handleClose (setIsOpen : Setter) (event : Event) : M Event :=
  event <- preventDefault event ;;
  event <- stopPropagation event ;;
  callSetter setIsOpen false ;;
  ret event.

(** [function lightDismiss(event)] *)
Definition lightDismiss (setIsOpen : Setter) (event : Event) : M Event :=
  let target := target event in
  if instanceofElement target && String.eqb (nodeName target) "DIALOG"
  then handleClose setIsOpen event
  else ret event.

(** [function closeOnEscape(event)] *)
Definition closeOnEscape (setIsOpen : Setter) (event : Event) : M Event :=
  match code event with
  | Some c => if String.eqb c "Escape" then handleClose setIsOpen event
              else ret event
  | None => ret event
  end.

(** The sync effect: body (returns the [dialog] its clean-up captures) and
    clean-up. *)
Definition syncEffect_body (isOpen : bool) : M (option DialogPtr) :=
  dialog <- gets dialogRef ;;
  (if isOpen then safelyOpenDialogAsModal dialog
   else optchain dialog native_close) ;;
  ret dialog.

Definition syncEffect_cleanup (dialog : option DialogPtr) : M unit :=
  optchain dialog native_close.

(** The listener effect: body and clean-up. *)
Definition listenerEffect_body (shouldLightDismiss : bool) (setIsOpen : Setter)
  : M (option DialogPtr) :=
  dialog <- gets dialogRef ;;
  (if shouldLightDismiss
   then optchain dialog (native_addEventListener "click" (LightDismiss setIsOpen) None)
   else ret tt) ;;
  optchain dialog (native_addEventListener "keydown" (CloseOnEscape setIsOpen) None) ;;
  ret dialog.

Definition listenerEffect_cleanup (shouldLightDismiss : bool) (setIsOpen : Setter)
           (dialog : option DialogPtr) : M unit :=
  (if shouldLightDismiss
   then optchain dialog (native_removeEventListener "click" (LightDismiss setIsOpen) None)
   else ret tt) ;;
  optchain dialog (native_removeEventListener "keydown" (CloseOnEscape setIsOpen) None).

(** The object built in [useImperativeHandle]. *)
Definition ModalDialogRef_close (h : ModalDialogRef) : M unit :=
  callSetter (ref_setIsOpen h) false.

Definition ModalDialogRef_showModal (h : ModalDialogRef) : M unit :=
  callSetter (ref_setIsOpen h) true.

Definition ModalDialogRef_isOpen (h : ModalDialogRef) : bool :=
  ref_isOpen h.

Definition ModalDialogRef_addEventListener (h : ModalDialogRef) (name : string)
           (callback : Callback) (options : option bool) : M unit :=
  current <- gets dialogRef ;;
  optchain current (native_addEventListener name (AncestorListener callback) options).

Definition ModalDialogRef_removeEventListener (h : ModalDialogRef) (name : string)
           (callback : Callback) (options : option bool) : M unit :=
  current <- gets dialogRef ;;
  optchain current (native_removeEventListener name (AncestorListener callback) options).

(** ** React: render, commit, mount, unmount *)

(** [const isOpen = controlledOpen ?? uncontrolledOpen] *)
Definition isOpen (w : World) : bool :=
  nullish (controlledOpen (props w)) (uncontrolledOpen w).

(** [const setIsOpen = setControlledOpen ?? setUncontrolledOpen] *)
Definition setIsOpen (p : ModalDialogProps) : Setter :=
  nullish (setControlledOpen p) setUncontrolledOpen.

Definition sync_changed (prev : option (bool * option DialogPtr)) (isOpen : bool) : bool :=
  match prev with
  | Some (dep, _) => negb (Bool.eqb dep isOpen)
  | None => true
  end.

Definition listener_changed (prev : option (bool * Setter * option DialogPtr))
           (shouldLightDismiss : bool) (setIsOpen : Setter) : bool :=
  match prev with
  | Some (dep1, dep2, _) =>
      negb (Bool.eqb dep1 shouldLightDismiss && Setter_eqb dep2 setIsOpen)
  | None => true
  end.

(** One render of [ModalDialog] with props [p], followed by its commit:
    the imperative handle is refreshed, then the clean-ups of the effects
    whose dependencies changed run, then the bodies of those effects. *)
Definition ModalDialog (p : ModalDialogProps) : M unit :=
  modify (with_props p) ;;
  let shouldLightDismiss := nullish (shouldLightDismiss p) true in
  isOpen <- gets isOpen ;;
  let setIsOpen := setIsOpen p in
  modify (with_forwardedRef (Some (mkRef isOpen setIsOpen))) ;;
  prevSync <- gets syncEffect ;;
  prevListener <- gets listenerEffect ;;
  let runSync := sync_changed prevSync isOpen in
  let runListener := listener_changed prevListener shouldLightDismiss setIsOpen in
  (match prevSync with
   | Some (_, dialog) => if runSync then syncEffect_cleanup dialog else ret tt
   | None => ret tt
   end) ;;
  (match prevListener with
   | Some (dep1, dep2, dialog) =>
       if runListener then listenerEffect_cleanup dep1 dep2 dialog else ret tt
   | None => ret tt
   end) ;;
  (if runSync
   then dialog <- syncEffect_body isOpen ;;
        modify (with_syncEffect (Some (isOpen, dialog)))
   else ret tt) ;;
  (if runListener
   then dialog <- listenerEffect_body shouldLightDismiss setIsOpen ;;
        modify (with_listenerEffect (Some (shouldLightDismiss, setIsOpen, dialog)))
   else ret tt).

(** The world before the component is mounted: App's cell holds [a], the
    element is closed and has no listener, [useState(initialOpen)] holds
    [initialOpen], which defaults to [false]. *)
Definition initialWorld (a : bool) (p : ModalDialogProps) : World :=
  mkWorld a (mkDialog false [] 0) p (nullish (initialOpen p) false)
          None None None None [].

(** Mount: React creates the element, attaches [dialogRef], renders and
    commits. *)
Definition mount (p : ModalDialogProps) : M unit :=
  modify (with_dialogRef (Some the_dialog)) ;;
  ModalDialog p.

(** Unmount: React detaches the refs, then runs every effect's clean-up. *)
Definition unmount : M unit :=
  modify (with_dialogRef None) ;;
  modify (with_forwardedRef None) ;;
  prevSync <- gets syncEffect ;;
  prevListener <- gets listenerEffect ;;
  (match prevSync with
   | Some (_, dialog) => syncEffect_cleanup dialog
   | None => ret tt
   end) ;;
  (match prevListener with
   | Some (dep1, dep2, dialog) => listenerEffect_cleanup dep1 dep2 dialog
   | None => ret tt
   end) ;;
  modify (with_syncEffect None) ;;
  modify (with_listenerEffect None).

(** ** The ancestor: [App.tsx] *)

(** App renders the controlled dialog with [isOpen={isOpen}] read from its
    own state cell; the other attributes are as in the last render. *)
Definition App_props (w : World) : ModalDialogProps :=
  let p := props w in
  match isOpenProps p with
  | ControlledProps _ f =>
      mkProps (ControlledProps (app_isOpen w) f)
              (shouldLightDismiss p) (initialOpen p) (onClose p)
  | UncontrolledProps => p
  end.

Definition App_render : M ModalDialogProps := gets App_props.

(** App mounts the dialog with props [p]; for a controlled dialog its cell
    holds the value it passes as [isOpen]. *)
Definition App_mount (p : ModalDialogProps) : Result World :=
  exec (mount p) (initialWorld (nullish (controlledOpen p) false) p).

(** ** Event delivery on the dialog element *)

Definition callListener (l : EventListener) (event : Event) : M Event :=
  match l with
  | LightDismiss s => lightDismiss s event
  | CloseOnEscape s => closeOnEscape s event
  | AncestorListener cb => modify (log (ListenerCalled cb)) ;; ret event
  end.

(** The listeners registered for the event's type run in registration
    order. *)
Fixpoint callListeners (ls : list Registration) (event : Event) : M Event :=
  match ls with
  | [] => ret event
  | r :: rest =>
      if String.eqb (reg_name r) (type event)
      then event <- callListener (reg_listener r) event ;;
           callListeners rest event
      else callListeners rest event
  end.

Definition isEscapeKeydown (event : Event) : bool :=
  String.eqb (type event) "keydown"
  && match key event with
     | Some k => String.eqb k "Escape"
     | None => false
     end.

(** Modelled from the spec: the cancel-key default action of the native
    element.  The platform recognises the cancel key by the key value of
    the event ([key] is "Escape"), whatever physical key produced it.
    Unless the key event was default-prevented, an open dialog closes
    itself and fires [close].  A click has no default action on the
    element. *)
Definition defaultAction (event : Event) : M unit :=
  if isEscapeKeydown event && negb (defaultPrevented event)
  then modify (fun w =>
         if open (dom w)
         then log NativeCancel (with_dom (close_element (dom w)) w)
         else w)
  else ret tt.

Definition dispatchEvent (event : Event) : M unit :=
  ls <- gets (fun w => listeners (dom w)) ;;
  event <- callListeners ls event ;;
  defaultAction event.

Fixpoint repeatM (n : nat) (m : M unit) : M unit :=
  match n with
  | O => ret tt
  | S k => m ;; repeatM k m
  end.

(** One [close] event reaches the element: React calls the [onClose] prop
    of the last render, then the listeners registered for [close] run. *)
Definition deliverClose : M unit :=
  oc <- gets (fun w => onClose (props w)) ;;
  (match oc with
   | Some cb => modify (log (OnClose cb))
   | None => ret tt
   end) ;;
  ls <- gets (fun w => listeners (dom w)) ;;
  _ <- callListeners ls closeEvent ;;
  ret tt.

(** The queued [close] events are delivered, oldest first. *)
Definition deliverCloseEvents : M unit :=
  n <- gets (fun w => closeEvents (dom w)) ;;
  modify (fun w => with_dom (mkDialog (open (dom w)) (listeners (dom w)) 0) w) ;;
  repeatM n deliverClose.

(** ** Requests *)

Inductive Request :=
| App_setState (value : bool)            (* App: [openControlled], [closeControlled] *)
| App_setAttributes (shouldLightDismiss : option bool) (onClose : option Callback)
                                         (* App re-renders with other attributes *)
| Ref_showModal                          (* [dialogRef.current?.showModal()] *)
| Ref_close                              (* [dialogRef.current?.close()] *)
| Ref_addEventListener (name : string) (callback : Callback) (options : option bool)
| Ref_removeEventListener (name : string) (callback : Callback) (options : option bool)
| Click (target : EventTarget)           (* a click reaches the dialog *)
| KeyDown (target : EventTarget) (code : string).
    (* a key press reaches the dialog; its key value and its code agree *)

(** Optional chaining on the forwarded ref: [ref.current?.method(...)]. *)
Definition viaRef (method : ModalDialogRef -> M unit) : M unit :=
  current <- gets forwardedRef ;;
  match current with
  | Some h => method h
  | None => ret tt
  end.

(** What runs in the event-loop turn of the request itself. *)
Definition handle (r : Request) : M unit :=
  match r with
  | App_setState value => callSetter (FromProps App_setIsOpen) value
  | App_setAttributes sld oc =>
      modify (fun w => with_props (mkProps (isOpenProps (props w)) sld
                                           (initialOpen (props w)) oc) w)
  | Ref_showModal => viaRef ModalDialogRef_showModal
  | Ref_close => viaRef ModalDialogRef_close
  | Ref_addEventListener name callback options =>
      viaRef (fun h => ModalDialogRef_addEventListener h name callback options)
  | Ref_removeEventListener name callback options =>
      viaRef (fun h => ModalDialogRef_removeEventListener h name callback options)
  | Click target => dispatchEvent (clickEvent target)
  | KeyDown target code => dispatchEvent (keydownEvent target code)
  end.

(** Reconciliation settles: App and the dialog re-render, the effects are
    committed, the [close] events the commit fired are delivered. *)
Definition settle : M unit :=
  p <- App_render ;;
  ModalDialog p ;;
  deliverCloseEvents.

Definition step (r : Request) : M unit :=
  handle r ;; settle.

Fixpoint run (rs : list Request) (w : World) : Result World :=
  match rs with
  | [] => Ok w
  | r :: rest =>
      match exec (step r) w with
      | Ok w' => run rest w'
      | Throw e => Throw e
      end
  end.

(** A session: mount with props [p], then serve the requests in order. *)
Definition session (p : ModalDialogProps) (rs : list Request) : Result World :=
  match App_mount p with
  | Ok w => run rs w
  | Throw e => Throw e
  end.

(** ** Inputs: the requests, and key presses in general *)

(** A [KeyDown] request stands for a key press whose key value and code
    agree.  On a keyboard that maps another physical key to Escape the two
    differ; [KeyPress] is a key press with any key value on any code. *)
Inductive Input :=
| Serve (r : Request)
| KeyPress (target : EventTarget) (key code : string).

Definition handleInput (i : Input) : M unit :=
  match i with
  | Serve r => handle r
  | KeyPress target key code => dispatchEvent (keyEvent target key code)
  end.

Definition stepInput (i : Input) : M unit :=
  handleInput i ;; settle.

Fixpoint runInputs (inputs : list Input) (w : World) : Result World :=
  match inputs with
  | [] => Ok w
  | i :: rest =>
      match exec (stepInput i) w with
      | Ok w' => runInputs rest w'
      | Throw e => Throw e
      end
  end.

Definition sessionInputs (p : ModalDialogProps) (inputs : list Input) : Result World :=
  match App_mount p with
  | Ok w => runInputs inputs w
  | Throw e => Throw e
  end.

(** The facade's query, through the forwarded ref. *)
Definition Ref_isOpen (w : World) : option bool :=
  option_map ModalDialogRef_isOpen (forwardedRef w).

(** The native element's own open status. *)
Definition native_status (w : World) : bool := open (dom w).

Definition count (o : Obs) (t : list Obs) : nat :=
  length (filter (Obs_eqb o) t).

(** ** Vocabulary of the proofs *)

(** The listeners the component itself registered, as opposed to those an
    ancestor added through the ref. *)
Definition ours (r : Registration) : bool :=
  match reg_listener r with
  | AncestorListener _ => false
  | _ => true
  end.

(** The component's registrations after the listener effect ran with
    dependencies [sld] and [s]. *)
Definition ourListeners (sld : bool) (s : Setter) : list Registration :=
  ((if sld then [mkReg "click" (LightDismiss s) false] else [])
   ++ [mkReg "keydown" (CloseOnEscape s) false])%list.

(** Registration [r] is for the event's type and its closure reaches
    [handleClose] on this event. *)
Definition fires (ev : Event) (r : Registration) : bool :=
  String.eqb (reg_name r) (type ev)
  && match reg_listener r with
     | LightDismiss _ =>
         instanceofElement (target ev) && String.eqb (nodeName (target ev)) "DIALOG"
     | CloseOnEscape _ =>
         match code ev with
         | Some c => String.eqb c "Escape"
         | None => false
         end
     | AncestorListener _ => false
     end.

Definition hit (ev : Event) (ls : list Registration) : bool :=
  existsb (fires ev) ls.

Definition listenerObs (ev : Event) (r : Registration) : list Obs :=
  if String.eqb (reg_name r) (type ev)
  then match reg_listener r with
       | AncestorListener cb => [ListenerCalled cb]
       | _ => if fires ev r then [PreventDefault; StopPropagation] else []
       end
  else [].

Definition listenerTrace (ev : Event) (ls : list Registration) : list Obs :=
  flat_map (listenerObs ev) ls.

(** The event after [handleClose] went through it. *)
Definition handled (ev : Event) : Event :=
  mkEvent (type ev) (target ev) (key ev) (code ev) true true.

Definition mark (b : bool) (ev : Event) : Event :=
  if b then handled ev else ev.

Definition append_trace (t : list Obs) (w : World) : World :=
  mkWorld (app_isOpen w) (dom w) (props w) (uncontrolledOpen w) (dialogRef w)
          (syncEffect w) (listenerEffect w) (forwardedRef w) (trace w ++ t).

(** The cell behind setter [s] holds [v]. *)
Definition setVia (s : Setter) (v : bool) (w : World) : World :=
  match s with
  | FromProps App_setIsOpen => with_app_isOpen v w
  | setUncontrolledOpen => with_uncontrolledOpen v w
  end.

Definition closeIf (b : bool) (s : Setter) (w : World) : World :=
  if b then setVia s false w else w.

Definition usesSetter (s : Setter) (r : Registration) : Prop :=
  match reg_listener r with
  | LightDismiss s' => s' = s
  | CloseOnEscape s' => s' = s
  | AncestorListener _ => True
  end.

(** [shouldLightDismiss = true] after destructuring. *)
Definition lightDismissEnabled (p : ModalDialogProps) : bool :=
  nullish (shouldLightDismiss p) true.

(** The state between two requests: reconciliation has settled. *)
Record Settled (w : World) : Prop := mkSettled {
  st_ref : dialogRef w = Some the_dialog;
  st_cell : match isOpenProps (props w) with
            | ControlledProps b _ => b = app_isOpen w
            | UncontrolledProps => True
            end;
  st_sync : syncEffect w = Some (isOpen w, Some the_dialog);
  st_native : open (dom w) = isOpen w;
  st_listener : listenerEffect w =
                Some (lightDismissEnabled (props w), setIsOpen (props w), Some the_dialog);
  st_handle : forwardedRef w = Some (mkRef (isOpen w) (setIsOpen (props w)));
  st_ours : filter ours (listeners (dom w)) =
            ourListeners (lightDismissEnabled (props w)) (setIsOpen (props w));
  st_queue : closeEvents (dom w) = 0
}.

(** The state after a request was handled and before reconciliation: the
    effects still hold the dependencies [b] and [l] of the last commit, the
    element is as that commit left it, and [q] [close] events wait. *)
Record Pending (b l : bool) (q : nat) (w : World) : Prop := mkPending {
  pn_ref : dialogRef w = Some the_dialog;
  pn_sync : syncEffect w = Some (b, Some the_dialog);
  pn_native : open (dom w) = b;
  pn_listener : listenerEffect w = Some (l, setIsOpen (props w), Some the_dialog);
  pn_ours : filter ours (listeners (dom w)) = ourListeners l (setIsOpen (props w));
  pn_queue : closeEvents (dom w) = q
}.

(** The observations that matter to reconciliation: native open and close
    commands, the platform closing the dialog by itself, [onClose]. *)
Definition essential (o : Obs) : bool :=
  match o with
  | NativeShowModal | NativeClose | NativeCancel | OnClose _ => true
  | _ => false
  end.

Definition essence (t : list Obs) : list Obs := filter essential t.

(** What a commit does to the element when the [isOpen] dependency goes
    from [b] to [n]: nothing if it did not change; otherwise the clean-up's
    close, then the body's command. *)
Definition syncObs (b n : bool) : list Obs :=
  if Bool.eqb b n then []
  else if n then [NativeClose; NativeShowModal]
  else [NativeClose; NativeClose].

(** What React's [onClose] handler adds to the trace. *)
Definition onCloseObs (oc : option Callback) : list Obs :=
  match oc with
  | Some cb => [OnClose cb]
  | None => []
  end.

(** The value the next render reads as [isOpen]. *)
Definition pendingOpen (w : World) : bool :=
  match isOpenProps (props w) with
  | ControlledProps _ _ => app_isOpen w
  | UncontrolledProps => uncontrolledOpen w
  end.

(** What the request asks [OpenState] to become. *)
Definition requested (r : Request) (w : World) : bool :=
  match r with
  | App_setState value =>
      match isOpenProps (props w) with
      | ControlledProps _ _ => value
      | UncontrolledProps => isOpen w
      end
  | App_setAttributes _ _ => isOpen w
  | Ref_showModal => true
  | Ref_close => false
  | Ref_addEventListener _ _ _ => isOpen w
  | Ref_removeEventListener _ _ _ => isOpen w
  | Click target =>
      if lightDismissEnabled (props w) && instanceofElement target
         && String.eqb (nodeName target) "DIALOG"
      then false else isOpen w
  | KeyDown _ code =>
      if String.eqb code "Escape" then false else isOpen w
  end.

(** The attributes App passes after the request. *)
Definition attributesAfter (r : Request) (p : ModalDialogProps) : ModalDialogProps :=
  match r with
  | App_setAttributes sld oc => mkProps (isOpenProps p) sld (initialOpen p) oc
  | _ => p
  end.

(** ** The dialogs of [App.tsx] *)

(** App's own [onClose] function. *)
Definition App_onClose : Callback := 0.

(** [<ModalDialog isOpen={isOpen} setIsOpen={setIsOpen} onClose={onClose}>] *)
Definition App_controlled : ModalDialogProps :=
  mkProps (ControlledProps false App_setIsOpen) None None (Some App_onClose).

(** [<ModalDialog ref={dialogRef}>] *)
Definition App_uncontrolled : ModalDialogProps :=
  mkProps UncontrolledProps None None None.

Definition world_of (r : Result World) (p : ModalDialogProps) : World :=
  match r with
  | Ok w => w
  | Throw _ => initialWorld false p
  end.

(** The controlled dialog after [openControlled]. *)
Definition App_controlled_open : World :=
  Eval vm_compute in
    world_of (session App_controlled [App_setState true]) App_controlled.

(** The uncontrolled dialog after [openUnControlled]. *)
Definition App_uncontrolled_open : World :=
  Eval vm_compute in
    world_of (session App_uncontrolled [Ref_showModal]) App_uncontrolled.

(** The controlled dialog, open, re-rendered with
    [shouldLightDismiss={false}]. *)
Definition App_controlled_open_strict : World :=
  Eval vm_compute in
    world_of (session App_controlled
                [App_setState true; App_setAttributes (Some false) (Some App_onClose)])
             App_controlled.

(** ** Vocabulary of the further properties *)

(** The world a request leaves in its own event-loop turn, before any
    re-render, as a function of the world it finds. *)
Definition afterHandle (r : Request) (w : World) : World :=
  let d := dom w in
  let s := setIsOpen (props w) in
  match r with
  | App_setState value => with_app_isOpen value w
  | App_setAttributes sld oc =>
      with_props (mkProps (isOpenProps (props w)) sld (initialOpen (props w)) oc) w
  | Ref_showModal => setVia s true w
  | Ref_close => setVia s false w
  | Ref_addEventListener name cb options =>
      log (NativeAddEventListener name)
          (with_dom (mkDialog (open d)
                              (register (mkReg name (AncestorListener cb)
                                               (nullish options false))
                                        (listeners d))
                              (closeEvents d)) w)
  | Ref_removeEventListener name cb options =>
      log (NativeRemoveEventListener name)
          (with_dom (mkDialog (open d)
                              (unregister (mkReg name (AncestorListener cb)
                                                 (nullish options false))
                                          (listeners d))
                              (closeEvents d)) w)
  | Click t =>
      append_trace (listenerTrace (clickEvent t) (listeners d))
                   (closeIf (hit (clickEvent t) (listeners d)) s w)
  | KeyDown t c =>
      append_trace (listenerTrace (keydownEvent t c) (listeners d))
                   (closeIf (hit (keydownEvent t c) (listeners d)) s w)
  end.

(** The platform's cancel action on the world [w], when [b] holds and the
    element is open. *)
Definition cancelIf (b : bool) (w : World) : World :=
  if b && open (dom w)
  then log NativeCancel (with_dom (close_element (dom w)) w)
  else w.

(** The world an input leaves in its own event-loop turn. *)
Definition afterInput (i : Input) (w : World) : World :=
  match i with
  | Serve r => afterHandle r w
  | KeyPress t k c =>
      let ev := keyEvent t k c in
      let ls := listeners (dom w) in
      cancelIf (isEscapeKeydown ev && negb (hit ev ls))
               (append_trace (listenerTrace ev ls)
                             (closeIf (hit ev ls) (setIsOpen (props w)) w))
  end.

(** The input makes the platform close the element by itself: a key press
    with key value "Escape" on another code, on an open dialog. *)
Definition platformCancels (i : Input) (w : World) : bool :=
  match i with
  | Serve _ => false
  | KeyPress _ k c =>
      native_status w && String.eqb k "Escape" && negb (String.eqb c "Escape")
  end.

(** What the input asks [OpenState] to become. *)
Definition requestedInput (i : Input) (w : World) : bool :=
  match i with
  | Serve r => requested r w
  | KeyPress _ _ c => if String.eqb c "Escape" then false else isOpen w
  end.

(** The registrations an ancestor made through the ref. *)
Definition theirs (r : Registration) : bool := negb (ours r).

(** Observations that only running listeners produces. *)
Definition quiet (o : Obs) : bool :=
  match o with
  | PreventDefault | StopPropagation | ListenerCalled _ => true
  | _ => false
  end.

Definition isListenerCalled (o : Obs) : bool :=
  match o with
  | ListenerCalled _ => true
  | _ => false
  end.

(** The dialog is used as a controlled component. *)
Definition controlled (p : ModalDialogProps) : bool :=
  match isOpenProps p with
  | ControlledProps _ _ => true
  | UncontrolledProps => false
  end.

(** Requests that go through the ref's listener pass-through. *)
Definition isListenerRequest (r : Request) : bool :=
  match r with
  | Ref_addEventListener _ _ _ | Ref_removeEventListener _ _ _ => true
  | _ => false
  end.

(** * Lemmas *)

(** ** Registrations *)

Lemma Registration_eqb_ours r x :
  Registration_eqb r x = true -> ours x = ours r.
Proof.
  unfold Registration_eqb, ours.
  destruct r as [n l c], x as [n' l' c']; cbn.
  destruct l, l'; cbn; rewrite ?andb_false_r; cbn; congruence.
Qed.

Lemma filter_ours_unregister r ls :
  ours r = true ->
  filter ours (unregister r ls) = unregister r (filter ours ls).
Proof.
  intros Hr. induction ls as [|x rest IH]; cbn; [reflexivity|].
  destruct (Registration_eqb r x) eqn:E.
  - rewrite (Registration_eqb_ours _ _ E), Hr. cbn. rewrite E. reflexivity.
  - destruct (ours x) eqn:Ox; cbn; rewrite ?Ox, ?E, IH; reflexivity.
Qed.

Lemma filter_ours_unregister_ancestor r ls :
  ours r = false ->
  filter ours (unregister r ls) = filter ours ls.
Proof.
  intros Hr. induction ls as [|x rest IH]; cbn; [reflexivity|].
  destruct (Registration_eqb r x) eqn:E.
  - rewrite (Registration_eqb_ours _ _ E), Hr. reflexivity.
  - cbn. rewrite IH. reflexivity.
Qed.

Lemma registered_filter_ours r ls :
  ours r = true ->
  registered r ls = registered r (filter ours ls).
Proof.
  intros Hr. unfold registered.
  induction ls as [|x rest IH]; cbn; [reflexivity|].
  destruct (Registration_eqb r x) eqn:E.
  - rewrite (Registration_eqb_ours _ _ E), Hr. cbn. rewrite E. reflexivity.
  - destruct (ours x); cbn; rewrite ?E, IH; reflexivity.
Qed.

Lemma filter_ours_register r ls :
  ours r = true ->
  filter ours (register r ls) = register r (filter ours ls).
Proof.
  intros Hr. unfold register.
  rewrite <- (registered_filter_ours r ls Hr).
  destruct (registered r ls); [reflexivity|].
  rewrite filter_app. cbn. rewrite Hr. reflexivity.
Qed.

Lemma filter_ours_register_ancestor r ls :
  ours r = false ->
  filter ours (register r ls) = filter ours ls.
Proof.
  intros Hr. unfold register.
  destruct (registered r ls); [reflexivity|].
  rewrite filter_app. cbn. rewrite Hr. apply app_nil_r.
Qed.

Lemma fires_ours ev r : fires ev r = true -> ours r = true.
Proof.
  unfold fires, ours. destruct (reg_listener r); try reflexivity.
  rewrite andb_false_r. discriminate.
Qed.

Lemma hit_filter_ours ev ls : hit ev ls = hit ev (filter ours ls).
Proof.
  unfold hit. induction ls as [|x rest IH]; cbn; [reflexivity|].
  destruct (ours x) eqn:Ox; cbn; rewrite IH; [reflexivity|].
  destruct (fires ev x) eqn:F; [|reflexivity].
  apply fires_ours in F. congruence.
Qed.

Lemma usesSetter_of_filter s ls :
  Forall (usesSetter s) (filter ours ls) -> Forall (usesSetter s) ls.
Proof.
  induction ls as [|x rest IH]; cbn; intros H; [constructor|].
  destruct (ours x) eqn:Ox.
  - inversion H; subst. constructor; auto.
  - constructor; auto. unfold usesSetter. unfold ours in Ox.
    destruct (reg_listener x); try discriminate. exact I.
Qed.

Lemma usesSetter_ourListeners l s : Forall (usesSetter s) (ourListeners l s).
Proof.
  unfold ourListeners. destruct l; cbn; repeat constructor.
Qed.

(** ** Running the listeners *)

Lemma append_trace_nil w : append_trace [] w = w.
Proof. destruct w; unfold append_trace; cbn. rewrite app_nil_r. reflexivity. Qed.

Lemma append_trace_log o t w :
  append_trace t (log o w) = append_trace (o :: t) w.
Proof.
  unfold append_trace, log; cbn. rewrite <- app_assoc. reflexivity.
Qed.

Lemma append_trace_app t1 t2 w :
  append_trace t2 (append_trace t1 w) = append_trace (t1 ++ t2) w.
Proof.
  unfold append_trace; cbn. rewrite <- app_assoc. reflexivity.
Qed.

Lemma append_trace_setVia t s v w :
  append_trace t (setVia s v w) = setVia s v (append_trace t w).
Proof. destruct s as [[]|]; reflexivity. Qed.

Lemma closeIf_setVia b s w :
  closeIf b s (setVia s false w) = setVia s false w.
Proof. destruct b, s as [[]|]; reflexivity. Qed.

Lemma closeIf_log b s o w :
  closeIf b s (log o w) = log o (closeIf b s w).
Proof. destruct b, s as [[]|]; reflexivity. Qed.

Lemma fires_handled ev r : fires (handled ev) r = fires ev r.
Proof. reflexivity. Qed.

Lemma hit_handled ev ls : hit (handled ev) ls = hit ev ls.
Proof. reflexivity. Qed.

Lemma listenerTrace_handled ev ls :
  listenerTrace (handled ev) ls = listenerTrace ev ls.
Proof. reflexivity. Qed.

Lemma mark_handled b ev : mark b (handled ev) = handled ev.
Proof. destruct b; reflexivity. Qed.

Lemma handleClose_spec s ev w :
  handleClose s ev w
  = Ok (handled ev, append_trace [PreventDefault; StopPropagation] (setVia s false w)).
Proof.
  unfold handleClose, preventDefault, stopPropagation, callSetter, bind, modify, ret.
  destruct s as [[]|]; cbn; unfold append_trace, log, handled; cbn;
    rewrite <- app_assoc; reflexivity.
Qed.

Lemma callListeners_spec s ls :
  Forall (usesSetter s) ls ->
  forall ev w,
    callListeners ls ev w
    = Ok (mark (hit ev ls) ev,
          append_trace (listenerTrace ev ls) (closeIf (hit ev ls) s w)).
Proof.
  induction 1 as [|r rest Hr _ IH]; intros ev w.
  - cbn. rewrite append_trace_nil. reflexivity.
  - cbn [callListeners].
    unfold hit, listenerTrace. cbn [existsb flat_map].
    fold (hit ev rest). fold (listenerTrace ev rest).
    unfold listenerObs, fires, usesSetter in *.
    destruct (String.eqb (reg_name r) (type ev)) eqn:En; cbn [andb orb app];
      [|rewrite IH; reflexivity].
    unfold bind, callListener.
    destruct (reg_listener r) as [s'|s'|cb]; subst.
    + unfold lightDismiss.
      destruct (instanceofElement (target ev)
                && String.eqb (nodeName (target ev)) "DIALOG")%bool eqn:C.
      * rewrite handleClose_spec, IH.
        rewrite hit_handled, listenerTrace_handled, mark_handled.
        rewrite append_trace_setVia, closeIf_setVia.
        cbn [orb mark closeIf].
        rewrite !append_trace_setVia, append_trace_app. reflexivity.
      * cbn [ret orb app]. rewrite IH. reflexivity.
    + unfold closeOnEscape.
      destruct (code ev) as [c|]; [destruct (String.eqb c "Escape")|].
      * rewrite handleClose_spec, IH.
        rewrite hit_handled, listenerTrace_handled, mark_handled.
        rewrite append_trace_setVia, closeIf_setVia.
        cbn [orb mark closeIf].
        rewrite !append_trace_setVia, append_trace_app. reflexivity.
      * cbn [ret orb app]. rewrite IH. reflexivity.
      * cbn [ret orb app]. rewrite IH. reflexivity.
    + unfold bind, modify, ret. cbv beta iota. cbn [orb]. rewrite IH.
      rewrite closeIf_log, append_trace_log. reflexivity.
Qed.

(** ** One render and commit *)

Arguments register : simpl never.
Arguments unregister : simpl never.

Lemma essence_app t1 t2 : essence (t1 ++ t2) = (essence t1 ++ essence t2)%list.
Proof. apply filter_app. Qed.

Lemma essence_listenerTrace ev ls : essence (listenerTrace ev ls) = [].
Proof.
  unfold listenerTrace. induction ls as [|r rest IH]; [reflexivity|].
  cbn [flat_map]. rewrite essence_app, IH, app_nil_r.
  unfold listenerObs.
  destruct (String.eqb (reg_name r) (type ev)); [|reflexivity].
  destruct (reg_listener r); try reflexivity; destruct (fires ev r); reflexivity.
Qed.

(** A commit under the dependencies [b], [l] of the previous one: the
    element ends up presenting exactly when [isOpen] holds, and a [close]
    event is queued when it stopped presenting. *)
Lemma ModalDialog_spec b l q p w :
  Pending b l q w ->
  setIsOpen p = setIsOpen (props w) ->
  exists w',
    ModalDialog p w = Ok (tt, w')
    /\ props w' = p
    /\ app_isOpen w' = app_isOpen w
    /\ uncontrolledOpen w' = uncontrolledOpen w
    /\ forwardedRef w' = Some (mkRef (isOpen w') (setIsOpen p))
    /\ Pending (isOpen w') (lightDismissEnabled p)
               (if b && negb (isOpen w') then S q else q) w'
    /\ essence (trace w') = (essence (trace w) ++ syncObs b (isOpen w'))%list.
Proof.
  intros [Href Hsync Hnat Hlis Hours Hq] Hs.
  destruct w as [a [o ls q'] p0 u r se le f t].
  cbn in Href, Hsync, Hnat, Hlis, Hours, Hq, Hs. subst.
  destruct p as [iop sld io oc].
  unfold setIsOpen in *. cbn in Hs. rewrite <- Hs in *. clear Hs.
  destruct iop as [c []|], b, l, sld as [[]|]; try destruct c; try destruct u;
  cbv -[register unregister filter ours ourListeners essence essential app].
  all: eexists; split; [reflexivity|].
  all: cbn -[register unregister filter ours ourListeners essence app].
  all: repeat match goal with |- _ /\ _ => split end; try reflexivity.
  all: try (constructor; cbn -[register unregister filter ours ourListeners];
            try reflexivity).
  all: try (cbn in Hours;
            rewrite ?filter_ours_register, ?filter_ours_unregister by reflexivity;
            rewrite Hours; reflexivity).
  all: unfold essence; rewrite ?filter_app; cbn;
       rewrite ?app_nil_r, <- ?app_assoc; reflexivity.
Qed.

(** Mounting never faults and leaves a settled world. *)
Lemma App_mount_spec p :
  exists w,
    App_mount p = Ok w
    /\ Settled w
    /\ props w = p
    /\ essence (trace w)
       = if isOpen w then [NativeShowModal] else [NativeClose].
Proof.
  destruct p as [[c []|] sld io oc];
    try destruct c; destruct sld as [[]|], io as [[]|];
    (eexists; split; [vm_compute; reflexivity|]);
    (split; [constructor; vm_compute; reflexivity|]);
    split; vm_compute; reflexivity.
Qed.

(** ** Delivering [close] events *)

Lemma hit_close l s : hit closeEvent (ourListeners l s) = false.
Proof. destruct l; reflexivity. Qed.

Lemma hit_click l s t :
  hit (clickEvent t) (ourListeners l s)
  = l && instanceofElement t && String.eqb (nodeName t) "DIALOG".
Proof.
  destruct l; cbn; [|reflexivity].
  rewrite orb_false_r. reflexivity.
Qed.

Lemma hit_keydown l s t c :
  hit (keydownEvent t c) (ourListeners l s) = String.eqb c "Escape".
Proof. destruct l; cbn; rewrite orb_false_r; reflexivity. Qed.

Lemma Pending_usesSetter b l q w :
  Pending b l q w -> Forall (usesSetter (setIsOpen (props w))) (listeners (dom w)).
Proof.
  intros H. apply usesSetter_of_filter. rewrite (pn_ours _ _ _ _ H).
  apply usesSetter_ourListeners.
Qed.

Lemma Pending_append_trace b l q t w :
  Pending b l q w -> Pending b l q (append_trace t w).
Proof. intros [? ? ? ? ? ?]. constructor; assumption. Qed.

Lemma deliverClose_spec b l w :
  Pending b l 0 w ->
  deliverClose w
  = Ok (tt, append_trace (onCloseObs (onClose (props w))
                          ++ listenerTrace closeEvent (listeners (dom w))) w).
Proof.
  intros H. pose proof (Pending_usesSetter _ _ _ _ H) as Hu.
  assert (Hh : hit closeEvent (listeners (dom w)) = false).
  { rewrite hit_filter_ours, (pn_ours _ _ _ _ H). apply hit_close. }
  unfold deliverClose, bind, gets.
  destruct (onClose (props w)) as [cb|]; cbn [onCloseObs modify ret].
  - change (listeners (dom (log (OnClose cb) w))) with (listeners (dom w)).
    rewrite (callListeners_spec _ _ Hu), Hh. cbn [closeIf].
    rewrite append_trace_log. reflexivity.
  - rewrite (callListeners_spec _ _ Hu), Hh. reflexivity.
Qed.

Lemma repeat_deliverClose b l n :
  forall w,
    Pending b l 0 w ->
    exists t,
      repeatM n deliverClose w = Ok (tt, append_trace t w)
      /\ essence t = concat (repeat (onCloseObs (onClose (props w))) n).
Proof.
  induction n as [|n IH]; intros w H.
  - exists []. cbn. rewrite append_trace_nil. split; reflexivity.
  - cbn [repeatM]. unfold bind. rewrite (deliverClose_spec _ _ _ H).
    match goal with
    | |- context [repeatM n deliverClose (append_trace ?t0 w)] =>
        destruct (IH _ (Pending_append_trace _ _ _ t0 _ H)) as (t & E & Ht)
    end.
    rewrite E. eexists. rewrite append_trace_app. split; [reflexivity|].
    rewrite !essence_app, essence_listenerTrace, app_nil_r, Ht.
    cbn [repeat concat]. f_equal.
    destruct (onClose (props w)); reflexivity.
Qed.

Lemma deliverCloseEvents_spec b l q w :
  Pending b l q w ->
  exists w',
    deliverCloseEvents w = Ok (tt, w')
    /\ Pending b l 0 w'
    /\ props w' = props w
    /\ app_isOpen w' = app_isOpen w
    /\ uncontrolledOpen w' = uncontrolledOpen w
    /\ forwardedRef w' = forwardedRef w
    /\ essence (trace w')
       = (essence (trace w) ++ concat (repeat (onCloseObs (onClose (props w))) q))%list.
Proof.
  intros H.
  set (w0 := with_dom (mkDialog (open (dom w)) (listeners (dom w)) 0) w).
  assert (H0 : Pending b l 0 w0).
  { destruct H. constructor; assumption || reflexivity. }
  destruct (repeat_deliverClose b l q w0 H0) as (t & E & Ht).
  exists (append_trace t w0). split.
  - unfold deliverCloseEvents, bind, gets, modify. fold w0.
    rewrite (pn_queue _ _ _ _ H). exact E.
  - split; [apply Pending_append_trace; exact H0|].
    repeat split; try reflexivity.
    cbn. change (filter essential (trace w ++ t)) with (essence (trace w ++ t)).
    rewrite essence_app, Ht. reflexivity.
Qed.

(** ** Handling a request, before reconciliation *)

Lemma Settled_Pending w :
  Settled w -> Pending (isOpen w) (lightDismissEnabled (props w)) 0 w.
Proof. intros [? ? ? ? ? ? ? ?]. constructor; assumption. Qed.

Lemma Settled_pendingOpen w : Settled w -> pendingOpen w = isOpen w.
Proof.
  intros H. pose proof (st_cell _ H) as Hc. unfold pendingOpen, isOpen, controlledOpen.
  destruct (isOpenProps (props w)); cbn; congruence.
Qed.

Lemma dispatchEvent_spec b l w ev :
  Pending b l 0 w ->
  (isEscapeKeydown ev = true -> hit ev (listeners (dom w)) = true) ->
  dispatchEvent ev w
  = Ok (tt, append_trace (listenerTrace ev (listeners (dom w)))
                         (closeIf (hit ev (listeners (dom w))) (setIsOpen (props w)) w)).
Proof.
  intros H Hesc. pose proof (Pending_usesSetter _ _ _ _ H) as Hu.
  unfold dispatchEvent, bind, gets.
  rewrite (callListeners_spec _ _ Hu).
  unfold defaultAction.
  destruct (hit ev (listeners (dom w))) eqn:Hh; cbn [mark].
  - change (isEscapeKeydown (handled ev)) with (isEscapeKeydown ev).
    cbn [handled defaultPrevented negb]. rewrite andb_false_r. reflexivity.
  - destruct (isEscapeKeydown ev); [discriminate Hesc; reflexivity|].
    reflexivity.
Qed.

Lemma Pending_closeIf b l q h w :
  Pending b l q w -> Pending b l q (closeIf h (setIsOpen (props w)) w).
Proof.
  intros HP. destruct h; [|exact HP].
  unfold closeIf. destruct HP.
  destruct (setIsOpen (props w)) as [[]|] eqn:E; constructor; cbn;
    rewrite ?E; assumption.
Qed.

Lemma pendingOpen_closeIf h w :
  pendingOpen (closeIf h (setIsOpen (props w)) w)
  = if h then false else pendingOpen w.
Proof.
  destruct h; [|reflexivity].
  unfold closeIf, setIsOpen, setControlledOpen, pendingOpen.
  destruct (isOpenProps (props w)) as [c []|] eqn:E; cbn; rewrite E; reflexivity.
Qed.

Lemma handle_spec r w :
  Settled w ->
  exists w1,
    handle r w = Ok (tt, w1)
    /\ Pending (isOpen w) (lightDismissEnabled (props w)) 0 w1
    /\ pendingOpen w1 = requested r w
    /\ props w1 = attributesAfter r (props w)
    /\ essence (trace w1) = essence (trace w).
Proof.
  intros HS. pose proof (Settled_Pending _ HS) as HP.
  pose proof (Settled_pendingOpen _ HS) as Hpo.
  destruct r as [v|sld oc| | |name cb opt|name cb opt|t|t c]; cbn [handle attributesAfter requested].
  - (* App_setState *)
    eexists; split; [reflexivity|].
    split; [destruct HP; constructor; assumption|].
    repeat split.
    unfold pendingOpen in *. cbn.
    destruct (isOpenProps (props w)); [reflexivity|exact Hpo].
  - (* App_setAttributes *)
    eexists; split; [reflexivity|].
    split; [destruct HP; constructor; assumption|].
    repeat split. exact Hpo.
  - (* Ref_showModal *)
    unfold viaRef, bind, gets. rewrite (st_handle _ HS).
    unfold ModalDialogRef_showModal, callSetter. cbn [ref_setIsOpen].
    unfold setIsOpen, setControlledOpen.
    destruct (isOpenProps (props w)) as [c []|] eqn:E; cbn [nullish];
      (eexists; split; [reflexivity|]);
      (split; [destruct HP; constructor; assumption|]);
      repeat split; unfold pendingOpen; cbn; rewrite E; reflexivity.
  - (* Ref_close *)
    unfold viaRef, bind, gets. rewrite (st_handle _ HS).
    unfold ModalDialogRef_close, callSetter. cbn [ref_setIsOpen].
    unfold setIsOpen, setControlledOpen.
    destruct (isOpenProps (props w)) as [c []|] eqn:E; cbn [nullish];
      (eexists; split; [reflexivity|]);
      (split; [destruct HP; constructor; assumption|]);
      repeat split; unfold pendingOpen; cbn; rewrite E; reflexivity.
  - (* Ref_addEventListener *)
    unfold viaRef, bind, gets. rewrite (st_handle _ HS).
    unfold ModalDialogRef_addEventListener, bind, gets. rewrite (st_ref _ HS).
    eexists; split; [reflexivity|].
    split; [|repeat split; try exact Hpo;
             cbn; unfold essence; rewrite filter_app; apply app_nil_r].
    destruct HP. constructor; try assumption.
    cbn. rewrite filter_ours_register_ancestor by reflexivity. assumption.
  - (* Ref_removeEventListener *)
    unfold viaRef, bind, gets. rewrite (st_handle _ HS).
    unfold ModalDialogRef_removeEventListener, bind, gets. rewrite (st_ref _ HS).
    eexists; split; [reflexivity|].
    split; [|repeat split; try exact Hpo;
             cbn; unfold essence; rewrite filter_app; apply app_nil_r].
    destruct HP. constructor; try assumption.
    cbn. rewrite filter_ours_unregister_ancestor by reflexivity. assumption.
  - (* Click *)
    rewrite (dispatchEvent_spec _ _ _ _ HP) by (intros; discriminate).
    eexists; split; [reflexivity|].
    split; [apply Pending_append_trace, Pending_closeIf, HP|].
    split; [|split; [destruct (hit _ _), (setIsOpen (props w)) as [[]|]; reflexivity|]].
    + change (pendingOpen (append_trace ?t ?x)) with (pendingOpen x).
      rewrite pendingOpen_closeIf, hit_filter_ours, (pn_ours _ _ _ _ HP), hit_click, Hpo.
      reflexivity.
    + change (trace (append_trace ?t ?x)) with (trace x ++ t)%list.
      rewrite essence_app, essence_listenerTrace, app_nil_r.
      destruct (hit _ _), (setIsOpen (props w)) as [[]|]; reflexivity.
  - (* KeyDown *)
    assert (Hh : hit (keydownEvent t c) (listeners (dom w)) = String.eqb c "Escape").
    { rewrite hit_filter_ours, (pn_ours _ _ _ _ HP). apply hit_keydown. }
    rewrite (dispatchEvent_spec _ _ _ _ HP) by (rewrite Hh; intros E; exact E).
    eexists; split; [reflexivity|].
    split; [apply Pending_append_trace, Pending_closeIf, HP|].
    split; [|split; [destruct (hit _ _), (setIsOpen (props w)) as [[]|]; reflexivity|]].
    + change (pendingOpen (append_trace ?t ?x)) with (pendingOpen x).
      rewrite pendingOpen_closeIf, Hh, Hpo. reflexivity.
    + change (trace (append_trace ?t ?x)) with (trace x ++ t)%list.
      rewrite essence_app, essence_listenerTrace, app_nil_r.
      destruct (hit _ _), (setIsOpen (props w)) as [[]|]; reflexivity.
Qed.

(** ** Reconciliation *)

Lemma setIsOpen_App_props w : setIsOpen (App_props w) = setIsOpen (props w).
Proof.
  unfold App_props, setIsOpen, setControlledOpen.
  destruct (isOpenProps (props w)) eqn:E; cbn; rewrite ?E; reflexivity.
Qed.

Lemma settle_spec b l w :
  Pending b l 0 w ->
  exists w',
    settle w = Ok (tt, w')
    /\ Settled w'
    /\ isOpen w' = pendingOpen w
    /\ props w' = App_props w
    /\ essence (trace w')
       = (essence (trace w) ++ syncObs b (pendingOpen w)
          ++ if b && negb (pendingOpen w) then onCloseObs (onClose (props w)) else [])%list.
Proof.
  intros HP.
  destruct (ModalDialog_spec b l 0 (App_props w) w HP (setIsOpen_App_props w))
    as (w1 & E1 & Hp1 & Ha1 & Hu1 & Hf1 & HP1 & Ht1).
  destruct (deliverCloseEvents_spec _ _ _ _ HP1)
    as (w2 & E2 & HP2 & Hp2 & Ha2 & Hu2 & Hf2 & Ht2).
  assert (Hopen1 : isOpen w1 = pendingOpen w).
  { unfold isOpen, pendingOpen, controlledOpen. rewrite Hp1, Hu1.
    unfold App_props. destruct (isOpenProps (props w)) eqn:E; cbn; rewrite ?E; reflexivity. }
  assert (Hopen2 : isOpen w2 = isOpen w1).
  { unfold isOpen. rewrite Hp2, Hu2. reflexivity. }
  assert (Hoc : onClose (App_props w) = onClose (props w)).
  { unfold App_props. destruct (isOpenProps (props w)); reflexivity. }
  exists w2. split.
  { unfold settle, bind, App_render, gets. rewrite E1. exact E2. }
  split.
  { destruct HP2. rewrite Hp2, Hp1 in *.
    constructor; rewrite ?Hopen2, ?Hp2, ?Hp1; try assumption.
    - rewrite Ha2, Ha1. unfold App_props.
      destruct (isOpenProps (props w)) eqn:E; cbn; [reflexivity|]. rewrite E. exact I.
    - rewrite Hf2, Hf1. reflexivity. }
  split; [congruence|]. split; [congruence|].
  rewrite Ht2, Ht1, Hp1, Hoc, Hopen1, <- app_assoc. do 2 f_equal.
  destruct (b && negb (pendingOpen w)); cbn; [apply app_nil_r|reflexivity].
Qed.

(** One request, from a settled world to a settled world. *)
Lemma step_spec r w :
  Settled w ->
  exists w',
    exec (step r) w = Ok w'
    /\ Settled w'
    /\ isOpen w' = requested r w
    /\ isOpenProps (attributesAfter r (props w)) = isOpenProps (props w)
    /\ shouldLightDismiss (props w') = shouldLightDismiss (attributesAfter r (props w))
    /\ onClose (props w') = onClose (attributesAfter r (props w))
    /\ essence (trace w')
       = (essence (trace w) ++ syncObs (isOpen w) (requested r w)
          ++ if isOpen w && negb (requested r w)
             then onCloseObs (onClose (attributesAfter r (props w))) else [])%list.
Proof.
  intros HS.
  destruct (handle_spec r w HS) as (w1 & E1 & HP1 & Ho1 & Hp1 & Ht1).
  destruct (settle_spec _ _ _ HP1) as (w2 & E2 & HS2 & Ho2 & Hp2 & Ht2).
  exists w2. split.
  { unfold exec, step, bind. rewrite E1, E2. reflexivity. }
  split; [exact HS2|]. split; [congruence|].
  split; [destruct r; reflexivity|].
  rewrite Hp2. unfold App_props. rewrite Hp1.
  split; [destruct (isOpenProps _); reflexivity|].
  split; [destruct (isOpenProps _); reflexivity|].
  rewrite Ht2, Ht1, Ho1, Hp1. reflexivity.
Qed.

Lemma run_Settled rs :
  forall w, Settled w -> exists w', run rs w = Ok w' /\ Settled w'.
Proof.
  induction rs as [|r rest IH]; intros w HS.
  - exists w. split; [reflexivity|exact HS].
  - destruct (step_spec r w HS) as (w1 & E1 & HS1 & _).
    cbn [run]. rewrite E1. apply IH, HS1.
Qed.

(** Every session runs to the end without a fault and ends settled. *)
Lemma session_Settled p rs :
  exists w, session p rs = Ok w /\ Settled w.
Proof.
  destruct (App_mount_spec p) as (w0 & E0 & HS0 & _).
  unfold session. rewrite E0. apply run_Settled, HS0.
Qed.

Lemma session_inv p rs w : session p rs = Ok w -> Settled w.
Proof.
  intros E. destruct (session_Settled p rs) as (w' & E' & HS).
  congruence.
Qed.

(** ** Counting observations *)

Lemma Obs_eqb_essential o x : Obs_eqb o x = true -> essential x = essential o.
Proof. destruct o, x; cbn; congruence. Qed.

Lemma count_app o t1 t2 : count o (t1 ++ t2) = count o t1 + count o t2.
Proof. unfold count. rewrite filter_app, length_app. reflexivity. Qed.

Lemma count_essence o t : essential o = true -> count o t = count o (essence t).
Proof.
  intros Ho. unfold count, essence.
  induction t as [|x rest IH]; [reflexivity|]. cbn.
  destruct (Obs_eqb o x) eqn:E.
  - rewrite (Obs_eqb_essential _ _ E), Ho. cbn. rewrite E. cbn. congruence.
  - destruct (essential x); cbn; rewrite ?E; exact IH.
Qed.

(** ** Three kinds of step *)

Lemma syncObs_same b : syncObs b b = [].
Proof. destruct b; reflexivity. Qed.

Lemma Settled_native w : Settled w -> native_status w = isOpen w.
Proof. intros H. exact (st_native _ H). Qed.

(** A request that asks for the state the dialog is in changes nothing. *)
Lemma step_idle r w :
  Settled w ->
  requested r w = isOpen w ->
  exists w',
    exec (step r) w = Ok w'
    /\ Settled w'
    /\ isOpen w' = isOpen w
    /\ native_status w' = native_status w
    /\ essence (trace w') = essence (trace w).
Proof.
  intros HS Hr.
  destruct (step_spec r w HS) as (w' & E & HS' & Ho & _ & _ & _ & Ht).
  exists w'. split; [exact E|]. split; [exact HS'|].
  rewrite Hr in *. split; [exact Ho|].
  split; [rewrite !Settled_native by assumption; exact Ho|].
  rewrite Ht, syncObs_same, andb_negb_r. cbn. apply app_nil_r.
Qed.

(** A request to close an open dialog: the effect's clean-up closes the
    element, the effect's body closes it again, [onClose] runs once. *)
Lemma step_close r w :
  Settled w ->
  isOpen w = true ->
  requested r w = false ->
  exists w',
    exec (step r) w = Ok w'
    /\ Settled w'
    /\ isOpen w' = false
    /\ native_status w' = false
    /\ onClose (props w') = onClose (attributesAfter r (props w))
    /\ essence (trace w')
       = (essence (trace w) ++ [NativeClose; NativeClose]
          ++ onCloseObs (onClose (props w')))%list.
Proof.
  intros HS Hb Hr.
  destruct (step_spec r w HS) as (w' & E & HS' & Ho & _ & _ & Hoc & Ht).
  exists w'. split; [exact E|]. split; [exact HS'|].
  rewrite Hr, Hb in *. split; [exact Ho|].
  split; [rewrite Settled_native by assumption; exact Ho|].
  split; [exact Hoc|]. rewrite Ht, Hoc. reflexivity.
Qed.

(** A request to open a closed dialog: one native [showModal]. *)
Lemma step_open r w :
  Settled w ->
  isOpen w = false ->
  requested r w = true ->
  exists w',
    exec (step r) w = Ok w'
    /\ Settled w'
    /\ isOpen w' = true
    /\ native_status w' = true
    /\ essence (trace w')
       = (essence (trace w) ++ [NativeClose; NativeShowModal])%list.
Proof.
  intros HS Hb Hr.
  destruct (step_spec r w HS) as (w' & E & HS' & Ho & _ & _ & _ & Ht).
  exists w'. split; [exact E|]. split; [exact HS'|].
  rewrite Hr, Hb in *. split; [exact Ho|].
  split; [rewrite Settled_native by assumption; exact Ho|].
  rewrite Ht. reflexivity.
Qed.

Lemma no_lightDismiss_registered w :
  Settled w ->
  lightDismissEnabled (props w) = false ->
  forall r s, In r (listeners (dom w)) -> reg_listener r <> LightDismiss s.
Proof.
  intros HS Hl r s Hin Hr.
  assert (Hf : In r (filter ours (listeners (dom w)))).
  { apply filter_In. split; [exact Hin|]. unfold ours. rewrite Hr. reflexivity. }
  rewrite (st_ours _ HS), Hl in Hf. cbn in Hf.
  destruct Hf as [Hf|[]]. subst r. discriminate Hr.
Qed.


(** * The claims *)

(** In a session of requests, whose key presses have a key value and a code
    that agree, no native fault occurs and every reconciliation settles
    with [OpenState] equal to the native element's open status. *)
Lemma agreement_when_key_and_code_agree :
  forall (p : ModalDialogProps) (rs : list Request),
  exists w, session p rs = Ok w /\ isOpen w = native_status w.
Proof.
  intros p rs. destruct (session_Settled p rs) as (w & E & HS).
  exists w. split; [exact E|]. symmetry. apply Settled_native, HS.
Qed.

(** C1.  The claim does not hold of the code for every dismissal gesture.
    [closeOnEscape] recognises the cancel key by [event.code], the platform
    by the key value.  On App's uncontrolled dialog, opened by
    [showModal()], a key press with key value "Escape" on the code
    "CapsLock" is not default-prevented: the platform closes the element,
    and once the reconciliation has settled [OpenState] and the facade's
    [isOpen()] are true while the element is closed.  A further
    [showModal()] changes nothing, the two stay apart. *)
Theorem C1_escape_key_on_another_code_diverges :
  exists w w',
    sessionInputs App_uncontrolled
      [Serve Ref_showModal; KeyPress (Descendant "BUTTON") "Escape" "CapsLock"] = Ok w
    /\ isOpen w = true
    /\ Ref_isOpen w = Some true
    /\ native_status w = false
    /\ essence (trace w) = [NativeClose; NativeClose; NativeShowModal; NativeCancel]
    /\ exec (stepInput (Serve Ref_showModal)) w = Ok w'
    /\ isOpen w' = true
    /\ native_status w' = false.
Proof.
  do 2 eexists.
  split; [vm_compute; reflexivity|].
  do 4 (split; [vm_compute; reflexivity|]).
  split; [vm_compute; reflexivity|].
  split; vm_compute; reflexivity.
Qed.

(** C2.  Requesting open when the dialog is already open never invokes the
    native [showModal] a second time.  For every state of the handle,
    [safelyOpenDialogAsModal] does not fault and leaves an open element
    untouched; and in any session, a request for open while [OpenState] is
    true is served without a native command and without a fault. *)
Theorem C2_no_second_native_showModal :
  (forall (dialog : option DialogPtr) (w : World),
      exists w', safelyOpenDialogAsModal dialog w = Ok (tt, w')
                 /\ (native_status w = true -> w' = w))
  /\ (forall p rs w r,
      session p rs = Ok w ->
      isOpen w = true ->
      requested r w = true ->
      exists w', exec (step r) w = Ok w'
                 /\ native_status w' = true
                 /\ count NativeShowModal (trace w') = count NativeShowModal (trace w)).
Proof.
  split.
  - intros [d|] w; [|exists w; split; [reflexivity|intros _; reflexivity]].
    unfold safelyOpenDialogAsModal, bind, native_open, gets, native_showModal, ret,
      native_status.
    destruct (open (dom w)) eqn:E; cbn; rewrite ?E.
    + exists w. split; [reflexivity|reflexivity].
    + eexists. split; [reflexivity|discriminate].
  - intros p rs w r E Hb Hr. pose proof (session_inv _ _ _ E) as HS.
    destruct (step_idle r w HS) as (w' & E' & _ & _ & Hn & Ht); [congruence|].
    exists w'. split; [exact E'|].
    split; [rewrite Hn, Settled_native by assumption; exact Hb|].
    rewrite (count_essence NativeShowModal (trace w')) by reflexivity.
    rewrite (count_essence NativeShowModal (trace w)) by reflexivity.
    rewrite Ht. reflexivity.
Qed.

Lemma C2_witness :
  exists w', exec (step Ref_showModal) App_uncontrolled_open = Ok w'
             /\ native_status w' = true
             /\ count NativeShowModal (trace w')
                = count NativeShowModal (trace App_uncontrolled_open).
Proof.
  apply (proj2 C2_no_second_native_showModal
               App_uncontrolled [Ref_showModal] App_uncontrolled_open Ref_showModal);
    vm_compute; reflexivity.
Defined.

(** C3.  With [shouldLightDismiss] true (the default when the prop is
    absent) and the dialog open, a click whose target is the dialog element
    itself makes [OpenState] false, closes the element, and has [onClose]
    invoked, once. *)
Theorem C3_backdrop_click_dismisses :
  forall p rs w,
    session p rs = Ok w ->
    lightDismissEnabled (props w) = true ->
    isOpen w = true ->
    exists w',
      exec (step (Click TheDialog)) w = Ok w'
      /\ isOpen w' = false
      /\ native_status w' = false
      /\ essence (trace w')
         = (essence (trace w) ++ [NativeClose; NativeClose]
            ++ onCloseObs (onClose (props w)))%list
      /\ (forall cb, onClose (props w) = Some cb ->
                     count (OnClose cb) (trace w') = S (count (OnClose cb) (trace w))).
Proof.
  intros p rs w E Hl Hb. pose proof (session_inv _ _ _ E) as HS.
  destruct (step_close (Click TheDialog) w HS Hb) as (w' & E' & _ & Ho & Hn & Hoc & Ht).
  { cbn. rewrite Hl. reflexivity. }
  cbn [attributesAfter] in Hoc. rewrite Hoc in Ht.
  exists w'. repeat split; try assumption.
  intros cb Hcb.
  rewrite (count_essence (OnClose cb) (trace w')) by reflexivity.
  rewrite (count_essence (OnClose cb) (trace w)) by reflexivity.
  rewrite Ht, Hcb, !count_app. cbn. rewrite Nat.eqb_refl. cbn. lia.
Qed.

Lemma C3_witness :
  lightDismissEnabled App_controlled = true
  /\ exists w',
      exec (step (Click TheDialog)) App_controlled_open = Ok w'
      /\ isOpen w' = false
      /\ native_status w' = false
      /\ essence (trace w')
         = (essence (trace App_controlled_open) ++ [NativeClose; NativeClose]
            ++ onCloseObs (onClose (props App_controlled_open)))%list
      /\ (forall cb, onClose (props App_controlled_open) = Some cb ->
                     count (OnClose cb) (trace w')
                     = S (count (OnClose cb) (trace App_controlled_open))).
Proof.
  split; [reflexivity|].
  apply (C3_backdrop_click_dismisses App_controlled [App_setState true]);
    vm_compute; reflexivity.
Defined.

(** C4.  With [shouldLightDismiss] false no [lightDismiss] listener is
    attached to the element, and a click whose target is the dialog element
    itself (or any other target) leaves [OpenState] and the native open
    status unchanged: no native command, no [onClose]. *)
Theorem C4_backdrop_click_inert_without_light_dismiss :
  forall p rs w t,
    session p rs = Ok w ->
    lightDismissEnabled (props w) = false ->
    (forall r s, In r (listeners (dom w)) -> reg_listener r <> LightDismiss s)
    /\ exists w',
        exec (step (Click t)) w = Ok w'
        /\ isOpen w' = isOpen w
        /\ native_status w' = native_status w
        /\ essence (trace w') = essence (trace w).
Proof.
  intros p rs w t E Hl. pose proof (session_inv _ _ _ E) as HS.
  split; [apply no_lightDismiss_registered; assumption|].
  destruct (step_idle (Click t) w HS) as (w' & E' & _ & Ho & Hn & Ht).
  { cbn. rewrite Hl. reflexivity. }
  exists w'. repeat split; assumption.
Qed.

Lemma C4_witness :
  (forall r s, In r (listeners (dom App_controlled_open_strict)) ->
               reg_listener r <> LightDismiss s)
  /\ exists w',
      exec (step (Click TheDialog)) App_controlled_open_strict = Ok w'
      /\ isOpen w' = isOpen App_controlled_open_strict
      /\ native_status w' = native_status App_controlled_open_strict
      /\ essence (trace w') = essence (trace App_controlled_open_strict).
Proof.
  apply (C4_backdrop_click_inert_without_light_dismiss
           App_controlled
           [App_setState true; App_setAttributes (Some false) (Some App_onClose)]);
    vm_compute; reflexivity.
Defined.

(** Where the code agrees with the claim on descendants: a click whose
    target is a descendant is inert when light dismiss is disabled, and when
    the descendant's node name is not "DIALOG". *)
Lemma descendant_click_inert :
  forall p rs w n,
    session p rs = Ok w ->
    String.eqb n "DIALOG" = false \/ lightDismissEnabled (props w) = false ->
    exists w',
      exec (step (Click (Descendant n))) w = Ok w'
      /\ isOpen w' = isOpen w
      /\ native_status w' = native_status w
      /\ essence (trace w') = essence (trace w).
Proof.
  intros p rs w n E Hn. pose proof (session_inv _ _ _ E) as HS.
  destruct (step_idle (Click (Descendant n)) w HS) as (w' & E' & _ & Ho & Hs & Ht).
  { cbn. destruct Hn as [Hn|Hl]; [rewrite Hn, andb_false_r|rewrite Hl]; reflexivity. }
  exists w'. repeat split; assumption.
Qed.

(** C5.  The claim does not hold of the code for every descendant.
    [lightDismiss] takes a click for a backdrop click when the target's
    node name is "DIALOG", whichever element it is.  On App's uncontrolled
    dialog (light dismiss enabled by default), opened by [showModal()], a
    click whose target is a descendant with node name "DIALOG" -- a dialog
    element nested in the content -- sets [OpenState] to false and has the
    element closed. *)
Theorem C5_click_on_nested_dialog_dismisses :
  exists w w',
    session App_uncontrolled [Ref_showModal] = Ok w
    /\ lightDismissEnabled (props w) = true
    /\ isOpen w = true
    /\ exec (step (Click (Descendant "DIALOG"))) w = Ok w'
    /\ isOpen w' = false
    /\ native_status w' = false.
Proof.
  do 2 eexists.
  split; [vm_compute; reflexivity|].
  do 2 (split; [vm_compute; reflexivity|]).
  split; [vm_compute; reflexivity|].
  split; vm_compute; reflexivity.
Qed.



(** C7.  The facade's [showModal()] only calls [setIsOpen(true)]: it leaves
    the element and the trace of native commands as they are.  In a
    session, the reconciliation that follows opens the element with one
    native [showModal] if it was closed and with none if it was open. *)
Theorem C7_facade_showModal_only_requests :
  (forall h w,
      ModalDialogRef_showModal h w = Ok (tt, setVia (ref_setIsOpen h) true w)
      /\ dom (setVia (ref_setIsOpen h) true w) = dom w
      /\ trace (setVia (ref_setIsOpen h) true w) = trace w)
  /\ (forall p rs,
      exists w w1 w2,
        session p rs = Ok w
        /\ handle Ref_showModal w = Ok (tt, w1)
        /\ dom w1 = dom w
        /\ trace w1 = trace w
        /\ pendingOpen w1 = true
        /\ settle w1 = Ok (tt, w2)
        /\ isOpen w2 = true
        /\ native_status w2 = true
        /\ count NativeShowModal (trace w2)
           = count NativeShowModal (trace w) + (if isOpen w then 0 else 1)).
Proof.
  split.
  - intros h w. unfold ModalDialogRef_showModal, callSetter, setVia.
    destruct (ref_setIsOpen h) as [[]|]; repeat split.
  - intros p rs. destruct (session_Settled p rs) as (w & E & HS).
    destruct (handle_spec Ref_showModal w HS) as (w1 & E1 & HP1 & Ho1 & _ & _).
    destruct (settle_spec _ _ _ HP1) as (w2 & E2 & HS2 & Ho2 & _ & Ht2).
    assert (Ew1 : w1 = setVia (setIsOpen (props w)) true w).
    { revert E1. cbn [handle]. unfold viaRef, bind, gets. rewrite (st_handle _ HS).
      unfold ModalDialogRef_showModal, callSetter, setVia. cbn [ref_setIsOpen].
      destruct (setIsOpen (props w)) as [[]|]; intros E1;
        injection E1 as <-; reflexivity. }
    cbn [requested] in Ho1. rewrite Ho1 in *.
    exists w, w1, w2. repeat split; try assumption.
    + rewrite Ew1. destruct (setIsOpen (props w)) as [[]|]; reflexivity.
    + rewrite Ew1. destruct (setIsOpen (props w)) as [[]|]; reflexivity.
    + rewrite Settled_native by assumption. exact Ho2.
    + rewrite (count_essence NativeShowModal (trace w2)) by reflexivity.
      rewrite (count_essence NativeShowModal (trace w)) by reflexivity.
      assert (Et : essence (trace w1) = essence (trace w)).
      { rewrite Ew1. destruct (setIsOpen (props w)) as [[]|]; reflexivity. }
      rewrite Ht2, Et, !count_app.
      destruct (isOpen w); cbn; lia.
Qed.

(** C8.  The facade's [isOpen()] returns the [OpenState] of the last
    render -- the [isOpen] prop in controlled mode, the internal cell in
    uncontrolled mode -- and does not read the element: whatever the
    element's state is replaced with, the answer is the same. *)
Theorem C8_facade_isOpen_returns_open_state :
  (forall h, ModalDialogRef_isOpen h = ref_isOpen h)
  /\ (forall p rs,
      exists w,
        session p rs = Ok w
        /\ Ref_isOpen w = Some (isOpen w)
        /\ isOpen w = match isOpenProps (props w) with
                      | ControlledProps b _ => b
                      | UncontrolledProps => uncontrolledOpen w
                      end
        /\ forall d, Ref_isOpen (with_dom d w) = Some (isOpen w)).
Proof.
  split; [reflexivity|].
  intros p rs. destruct (session_Settled p rs) as (w & E & HS).
  exists w. split; [exact E|].
  assert (H : Ref_isOpen w = Some (isOpen w)).
  { unfold Ref_isOpen. rewrite (st_handle _ HS). reflexivity. }
  split; [exact H|]. split.
  - unfold isOpen, controlledOpen. destruct (isOpenProps (props w)); reflexivity.
  - intros d. exact H.
Qed.

(** ** Unmount *)

Lemma unmount_spec w :
  Settled w ->
  exists w',
    exec unmount w = Ok w'
    /\ native_status w' = false
    /\ closeEvents (dom w') = (if isOpen w then 1 else 0)
    /\ filter ours (listeners (dom w')) = []
    /\ dialogRef w' = None
    /\ essence (trace w') = (essence (trace w) ++ [NativeClose])%list.
Proof.
  intros [Href Hcell Hsync Hnat Hlis Hf Hours Hq].
  destruct w as [a [o ls q] [iop sld io oc] u r se le f t].
  unfold isOpen, lightDismissEnabled, setIsOpen in *.
  cbn in Href, Hcell, Hsync, Hnat, Hlis, Hf, Hours, Hq. subst.
  destruct iop as [c []|], sld as [[]|]; try destruct c; try destruct u;
    cbv -[register unregister filter ours ourListeners essence essential app].
  all: eexists; split; [reflexivity|].
  all: cbn -[register unregister filter ours ourListeners essence app].
  all: repeat match goal with |- _ /\ _ => split end; try reflexivity.
  all: try (cbn in Hours;
            rewrite ?filter_ours_unregister by reflexivity;
            rewrite Hours; reflexivity).
  all: unfold essence; rewrite ?filter_app; cbn;
       rewrite ?app_nil_r, <- ?app_assoc; reflexivity.
Qed.

(** C9.  On unmount a native close is invoked on the dialog handle whatever
    [OpenState] is: after any session, unmounting issues exactly one native
    [close] and leaves the element closed -- also when the component is
    unmounted while [OpenState] is still true, as for a controlled dialog
    mounted with [isOpen = true] and unmounted at once. *)
Theorem C9_unmount_forces_native_close :
  (forall p rs,
      exists w w',
        session p rs = Ok w
        /\ exec unmount w = Ok w'
        /\ native_status w' = false
        /\ essence (trace w') = (essence (trace w) ++ [NativeClose])%list
        /\ count NativeClose (trace w') = S (count NativeClose (trace w)))
  /\ (forall f sld io oc,
      exists w w',
        session (mkProps (ControlledProps true f) sld io oc) [] = Ok w
        /\ isOpen w = true
        /\ native_status w = true
        /\ exec unmount w = Ok w'
        /\ native_status w' = false
        /\ essence (trace w') = [NativeShowModal; NativeClose]).
Proof.
  split.
  - intros p rs. destruct (session_Settled p rs) as (w & E & HS).
    destruct (unmount_spec w HS) as (w' & E' & Hn & _ & _ & _ & Ht).
    exists w, w'. repeat split; try assumption.
    rewrite (count_essence NativeClose (trace w')) by reflexivity.
    rewrite (count_essence NativeClose (trace w)) by reflexivity.
    rewrite Ht, count_app. cbn. lia.
  - intros f sld io oc.
    destruct (App_mount_spec (mkProps (ControlledProps true f) sld io oc))
      as (w & E & HS & Hp & Ht).
    destruct (unmount_spec w HS) as (w' & E' & Hn & _ & _ & _ & Ht').
    assert (Ho : isOpen w = true).
    { unfold isOpen. rewrite Hp. reflexivity. }
    exists w, w'. unfold session. rewrite E. cbn [run].
    rewrite Ho in Ht. rewrite Ht in Ht'.
    repeat split; try assumption.
    rewrite Settled_native by assumption. exact Ho.
Qed.

(** C10.  With the native dialog handle absent ([null]) nothing faults and
    no native call is made: [safelyOpenDialogAsModal], the bodies and
    clean-ups of both effects, and the facade's [addEventListener] and
    [removeEventListener] return with the world unchanged; the facade's
    [close] and [showModal] only write the state cell; a whole render and
    commit succeeds and leaves the element and the trace untouched. *)
Theorem C10_total_when_handle_is_null :
  forall w,
    dialogRef w = None ->
    safelyOpenDialogAsModal None w = Ok (tt, w)
    /\ (forall b, syncEffect_body b w = Ok (None, w))
    /\ syncEffect_cleanup None w = Ok (tt, w)
    /\ (forall l s, listenerEffect_body l s w = Ok (None, w))
    /\ (forall l s, listenerEffect_cleanup l s None w = Ok (tt, w))
    /\ (forall h name cb opt,
           ModalDialogRef_addEventListener h name cb opt w = Ok (tt, w)
           /\ ModalDialogRef_removeEventListener h name cb opt w = Ok (tt, w))
    /\ (forall h,
           exists w1 w2,
             ModalDialogRef_close h w = Ok (tt, w1)
             /\ ModalDialogRef_showModal h w = Ok (tt, w2)
             /\ dom w1 = dom w /\ trace w1 = trace w
             /\ dom w2 = dom w /\ trace w2 = trace w)
    /\ (forall p,
           syncEffect w = None ->
           listenerEffect w = None ->
           exists w', ModalDialog p w = Ok (tt, w')
                      /\ dom w' = dom w /\ trace w' = trace w
                      /\ isOpen w' = nullish (controlledOpen p) (uncontrolledOpen w)).
Proof.
  intros w Href.
  split; [reflexivity|].
  split.
  { intros b. unfold syncEffect_body, bind, gets. rewrite Href.
    destruct b; reflexivity. }
  split; [reflexivity|].
  split.
  { intros l s. unfold listenerEffect_body, bind, gets. rewrite Href.
    destruct l; reflexivity. }
  split.
  { intros l s. unfold listenerEffect_cleanup, bind. destruct l; reflexivity. }
  split.
  { intros h name cb opt.
    unfold ModalDialogRef_addEventListener, ModalDialogRef_removeEventListener,
      bind, gets.
    rewrite Href. split; reflexivity. }
  split.
  { intros h. unfold ModalDialogRef_close, ModalDialogRef_showModal, callSetter.
    destruct (ref_setIsOpen h) as [[]|]; do 2 eexists; repeat split. }
  intros p Hs Hl.
  destruct w as [a d p0 u r se le f t]. cbn in Href, Hs, Hl. subst.
  destruct p as [[c []|] [[]|] io oc]; try destruct c; try destruct u;
    (eexists; split; [vm_compute; reflexivity|]); repeat split.
Qed.

Lemma C10_witness :
  safelyOpenDialogAsModal None (initialWorld false App_uncontrolled)
  = Ok (tt, initialWorld false App_uncontrolled)
  /\ exists w', ModalDialog App_uncontrolled (initialWorld false App_uncontrolled)
                = Ok (tt, w')
                /\ dom w' = dom (initialWorld false App_uncontrolled)
                /\ trace w' = trace (initialWorld false App_uncontrolled)
                /\ isOpen w' = false.
Proof.
  pose proof (C10_total_when_handle_is_null
                (initialWorld false App_uncontrolled) eq_refl) as H.
  split; [exact (proj1 H)|].
  apply H; reflexivity.
Defined.

(** * Further properties *)

(** ** A request in its own turn *)

Lemma handle_afterHandle r w :
  Settled w -> handle r w = Ok (tt, afterHandle r w).
Proof.
  intros HS. pose proof (Settled_Pending _ HS) as HP.
  destruct r as [v|sld oc| | |name cb opt|name cb opt|t|t c];
    cbn [handle afterHandle].
  - reflexivity.
  - reflexivity.
  - unfold viaRef, bind, gets. rewrite (st_handle _ HS).
    unfold ModalDialogRef_showModal, callSetter, setVia. cbn [ref_setIsOpen].
    destruct (setIsOpen (props w)) as [[]|]; reflexivity.
  - unfold viaRef, bind, gets. rewrite (st_handle _ HS).
    unfold ModalDialogRef_close, callSetter, setVia. cbn [ref_setIsOpen].
    destruct (setIsOpen (props w)) as [[]|]; reflexivity.
  - unfold viaRef, bind, gets. rewrite (st_handle _ HS).
    unfold ModalDialogRef_addEventListener, bind, gets. rewrite (st_ref _ HS).
    reflexivity.
  - unfold viaRef, bind, gets. rewrite (st_handle _ HS).
    unfold ModalDialogRef_removeEventListener, bind, gets. rewrite (st_ref _ HS).
    reflexivity.
  - apply (dispatchEvent_spec _ _ _ _ HP). intros; discriminate.
  - apply (dispatchEvent_spec _ _ _ _ HP).
    rewrite hit_filter_ours, (pn_ours _ _ _ _ HP), hit_keydown.
    intros E; exact E.
Qed.

Lemma afterHandle_frame r w :
  forwardedRef (afterHandle r w) = forwardedRef w
  /\ open (dom (afterHandle r w)) = open (dom w)
  /\ closeEvents (dom (afterHandle r w)) = closeEvents (dom w)
  /\ controlled (props (afterHandle r w)) = controlled (props w)
  /\ initialOpen (props (afterHandle r w)) = initialOpen (props w)
  /\ setIsOpen (props (afterHandle r w)) = setIsOpen (props w).
Proof.
  destruct r; cbn [afterHandle]; try (repeat split; reflexivity).
  - destruct (setIsOpen (props w)) as [[]|] eqn:E; repeat split;
      reflexivity || exact E.
  - destruct (setIsOpen (props w)) as [[]|] eqn:E; repeat split;
      reflexivity || exact E.
  - destruct (hit _ _), (setIsOpen (props w)) as [[]|] eqn:E; repeat split;
      reflexivity || exact E.
  - destruct (hit _ _), (setIsOpen (props w)) as [[]|] eqn:E; repeat split;
      reflexivity || exact E.
Qed.

(** ** What a dispatch leaves in the trace *)

Lemma quiet_listenerTrace_no_hit ev ls :
  hit ev ls = false -> forallb isListenerCalled (listenerTrace ev ls) = true.
Proof.
  unfold hit, listenerTrace. induction ls as [|r rest IH]; [reflexivity|].
  cbn [existsb flat_map]. intros H. apply orb_false_iff in H as [Hf Hrest].
  rewrite forallb_app, (IH Hrest), andb_true_r.
  unfold listenerObs. rewrite Hf.
  destruct (String.eqb (reg_name r) (type ev)); [|reflexivity].
  destruct (reg_listener r); reflexivity.
Qed.



(** ** The ancestor's registrations *)

Lemma filter_theirs_register r ls :
  ours r = true -> filter theirs (register r ls) = filter theirs ls.
Proof.
  intros Hr. unfold register. destruct (registered r ls); [reflexivity|].
  rewrite filter_app. cbn [filter]. unfold theirs at 2. rewrite Hr. apply app_nil_r.
Qed.

Lemma filter_theirs_unregister r ls :
  ours r = true -> filter theirs (unregister r ls) = filter theirs ls.
Proof.
  intros Hr. induction ls as [|x rest IH]; [reflexivity|].
  unfold unregister; fold unregister.
  destruct (Registration_eqb r x) eqn:E; cbn [filter].
  - assert (Hx : theirs x = false).
    { unfold theirs. rewrite (Registration_eqb_ours _ _ E), Hr. reflexivity. }
    rewrite Hx. reflexivity.
  - rewrite IH. reflexivity.
Qed.

Lemma filter_ours_nil_theirs ls :
  filter ours ls = [] -> filter theirs ls = ls.
Proof.
  induction ls as [|x rest IH]; [reflexivity|]. cbn. unfold theirs at 1.
  destruct (ours x); [discriminate|]. cbn. intros H. rewrite (IH H). reflexivity.
Qed.

Lemma callers_theirs cb ev ls :
  count (ListenerCalled cb) (listenerTrace ev ls)
  = count (ListenerCalled cb) (listenerTrace ev (filter theirs ls)).
Proof.
  unfold listenerTrace. induction ls as [|x rest IH]; [reflexivity|].
  cbn [flat_map filter]. unfold theirs at 1, ours.
  rewrite count_app, IH. unfold listenerObs at 1.
  destruct (reg_listener x) as [s|s|c] eqn:E; cbn [negb].
  - destruct (String.eqb (reg_name x) (type ev)), (fires ev x); reflexivity.
  - destruct (String.eqb (reg_name x) (type ev)), (fires ev x); reflexivity.
  - cbn [flat_map]. rewrite count_app. unfold listenerObs. rewrite E. reflexivity.
Qed.

(** ** What a commit and a delivery leave alone *)

Lemma ModalDialog_frame b l q p w :
  Pending b l q w ->
  setIsOpen p = setIsOpen (props w) ->
  exists w',
    ModalDialog p w = Ok (tt, w')
    /\ filter theirs (listeners (dom w')) = filter theirs (listeners (dom w))
    /\ (lightDismissEnabled p = l -> listeners (dom w') = listeners (dom w))
    /\ (forall o, quiet o = true -> count o (trace w') = count o (trace w)).
Proof.
  intros [Href Hsync Hnat Hlis Hours Hq] Hs.
  destruct w as [a [o ls q'] p0 u r se le f t].
  cbn in Href, Hsync, Hnat, Hlis, Hours, Hq, Hs. subst.
  destruct p as [iop sld io oc].
  unfold setIsOpen in *. cbn in Hs. rewrite <- Hs in *. clear Hs Hours.
  destruct iop as [c []|], b, l, sld as [[]|]; try destruct c; try destruct u;
  cbv -[register unregister filter ours theirs count app].
  all: eexists; split; [reflexivity|].
  all: cbn -[register unregister filter ours theirs count app].
  all: split;
    [rewrite ?filter_theirs_register, ?filter_theirs_unregister by reflexivity;
     reflexivity|].
  all: split; [intros E; reflexivity || discriminate E|].
  all: intros ob Hob; destruct ob; try discriminate Hob;
       rewrite ?count_app; cbn; lia.
Qed.

Lemma repeat_deliverClose_count b l n :
  forall w,
    Pending b l 0 w ->
    exists t,
      repeatM n deliverClose w = Ok (tt, append_trace t w)
      /\ forall o,
          count o t
          = n * count o (onCloseObs (onClose (props w))
                         ++ listenerTrace closeEvent (listeners (dom w))).
Proof.
  induction n as [|n IH]; intros w H.
  - exists []. cbn. rewrite append_trace_nil. split; reflexivity.
  - cbn [repeatM]. unfold bind. rewrite (deliverClose_spec _ _ _ H).
    match goal with
    | |- context [repeatM n deliverClose (append_trace ?t0 w)] =>
        destruct (IH _ (Pending_append_trace _ _ _ t0 _ H)) as (t & E & Ht)
    end.
    rewrite E. eexists. rewrite append_trace_app. split; [reflexivity|].
    intros o. rewrite count_app, Ht. cbn [append_trace props dom listeners]. lia.
Qed.

Lemma deliverCloseEvents_frame b l q w :
  Pending b l q w ->
  exists t,
    deliverCloseEvents w
    = Ok (tt, append_trace t (with_dom (mkDialog (open (dom w)) (listeners (dom w)) 0) w))
    /\ forall o,
        count o t
        = q * count o (onCloseObs (onClose (props w))
                       ++ listenerTrace closeEvent (listeners (dom w))).
Proof.
  intros H.
  set (w0 := with_dom (mkDialog (open (dom w)) (listeners (dom w)) 0) w).
  assert (H0 : Pending b l 0 w0).
  { destruct H. constructor; assumption || reflexivity. }
  destruct (repeat_deliverClose_count b l q w0 H0) as (t & E & Ht).
  exists t. split.
  - unfold deliverCloseEvents, bind, gets, modify. fold w0.
    rewrite (pn_queue _ _ _ _ H). exact E.
  - exact Ht.
Qed.

Lemma count_quiet_onCloseObs o oc : quiet o = true -> count o (onCloseObs oc) = 0.
Proof. destruct oc, o; try discriminate; reflexivity. Qed.

Lemma settle_frame b l w :
  Pending b l 0 w ->
  exists w',
    settle w = Ok (tt, w')
    /\ app_isOpen w' = app_isOpen w
    /\ uncontrolledOpen w' = uncontrolledOpen w
    /\ props w' = App_props w
    /\ filter theirs (listeners (dom w')) = filter theirs (listeners (dom w))
    /\ (lightDismissEnabled (props w) = l -> listeners (dom w') = listeners (dom w))
    /\ (forall o, quiet o = true ->
          count o (trace w')
          = count o (trace w)
            + if b && negb (pendingOpen w)
              then count o (listenerTrace closeEvent (listeners (dom w')))
              else 0).
Proof.
  intros HP.
  destruct (ModalDialog_spec b l 0 (App_props w) w HP (setIsOpen_App_props w))
    as (w1 & E1 & Hp1 & Ha1 & Hu1 & Hf1 & HP1 & Ht1).
  destruct (ModalDialog_frame b l 0 (App_props w) w HP (setIsOpen_App_props w))
    as (w1' & E1' & Hth & Hls & Hct).
  rewrite E1 in E1'. injection E1' as <-.
  destruct (deliverCloseEvents_frame _ _ _ _ HP1) as (t & E2 & Ht).
  assert (Hopen1 : isOpen w1 = pendingOpen w).
  { unfold isOpen, pendingOpen, controlledOpen. rewrite Hp1, Hu1.
    unfold App_props. destruct (isOpenProps (props w)) eqn:E; cbn; rewrite ?E; reflexivity. }
  assert (Hl : lightDismissEnabled (App_props w) = lightDismissEnabled (props w)).
  { unfold App_props. destruct (isOpenProps (props w)); reflexivity. }
  eexists. split.
  { unfold settle, bind, App_render, gets. rewrite E1. exact E2. }
  cbn [append_trace with_dom app_isOpen uncontrolledOpen props dom listeners trace].
  repeat split; try assumption.
  - intros E. apply Hls. congruence.
  - intros o Ho. rewrite count_app, Ht, (Hct o Ho), Hopen1.
    rewrite count_app, (count_quiet_onCloseObs _ _ Ho).
    destruct (b && negb (pendingOpen w)); cbn; lia.
Qed.

(** ** One request, the parts [step_spec] does not tell *)

Lemma step_frame r w :
  Settled w ->
  exists w',
    exec (step r) w = Ok w'
    /\ Settled w'
    /\ isOpen w' = requested r w
    /\ controlled (props w') = controlled (props w)
    /\ initialOpen (props w') = initialOpen (props w)
    /\ (controlled (props w) = true -> uncontrolledOpen w' = uncontrolledOpen w)
    /\ (isListenerRequest r = false ->
        filter theirs (listeners (dom w')) = filter theirs (listeners (dom w)))
    /\ (lightDismissEnabled (attributesAfter r (props w)) = lightDismissEnabled (props w) ->
        listeners (dom w') = listeners (dom (afterHandle r w)))
    /\ (forall o, quiet o = true ->
          count o (trace w')
          = count o (trace (afterHandle r w))
            + if isOpen w && negb (requested r w)
              then count o (listenerTrace closeEvent (listeners (dom w')))
              else 0).
Proof.
  intros HS.
  destruct (handle_spec r w HS) as (w1 & E1 & HP1 & Ho1 & Hp1 & Ht1).
  pose proof (handle_afterHandle r w HS) as E1'.
  rewrite E1 in E1'. injection E1' as ->.
  destruct (settle_spec _ _ _ HP1) as (w2 & E2 & HS2 & Ho2 & Hp2 & Ht2).
  destruct (settle_frame _ _ _ HP1) as (w2' & E2' & Ha & Hu & _ & Hth & Hls & Hct).
  rewrite E2 in E2'. injection E2' as <-.
  destruct (afterHandle_frame r w) as (_ & _ & _ & Hc & Hio & _).
  exists w2. split.
  { unfold exec, step, bind. rewrite E1, E2. reflexivity. }
  split; [exact HS2|]. split; [congruence|].
  assert (Hc2 : controlled (props w2) = controlled (props (afterHandle r w))).
  { rewrite Hp2. unfold App_props, controlled.
    destruct (isOpenProps (props (afterHandle r w))) eqn:E; cbn; rewrite ?E; reflexivity. }
  assert (Hio2 : initialOpen (props w2) = initialOpen (props (afterHandle r w))).
  { rewrite Hp2. unfold App_props.
    destruct (isOpenProps (props (afterHandle r w))); reflexivity. }
  split; [congruence|]. split; [congruence|].
  split.
  { intros Hctl. rewrite Hu. clear - Hctl.
    unfold controlled in Hctl.
    destruct r; cbn [afterHandle]; try reflexivity.
    - unfold setIsOpen, setControlledOpen.
      destruct (isOpenProps (props w)) as [? []|]; [reflexivity|discriminate].
    - unfold setIsOpen, setControlledOpen.
      destruct (isOpenProps (props w)) as [? []|]; [reflexivity|discriminate].
    - unfold setIsOpen, setControlledOpen.
      destruct (isOpenProps (props w)) as [? []|]; [|discriminate].
      destruct (hit _ _); reflexivity.
    - unfold setIsOpen, setControlledOpen.
      destruct (isOpenProps (props w)) as [? []|]; [|discriminate].
      destruct (hit _ _); reflexivity. }
  split.
  { intros Hr. rewrite Hth. clear - Hr.
    destruct r; try discriminate Hr; cbn [afterHandle]; try reflexivity.
    - destruct (setIsOpen (props w)) as [[]|]; reflexivity.
    - destruct (setIsOpen (props w)) as [[]|]; reflexivity.
    - destruct (hit _ _), (setIsOpen (props w)) as [[]|]; reflexivity.
    - destruct (hit _ _), (setIsOpen (props w)) as [[]|]; reflexivity. }
  split.
  { intros Hl. apply Hls. rewrite Hp1. exact Hl. }
  intros o Ho. rewrite (Hct o Ho), Ho1. reflexivity.
Qed.

(** ** Invariants of a session *)

Section RunInvariant.
Variable P : World -> Prop.
Hypothesis P_step :
  forall r w w', Settled w -> P w -> exec (step r) w = Ok w' -> P w'.

Lemma run_invariant rs :
  forall w w', Settled w -> P w -> run rs w = Ok w' -> P w'.
Proof.
  induction rs as [|r rest IH]; intros w w' HS HP E.
  - cbn in E. injection E as <-. exact HP.
  - cbn [run] in E.
    destruct (step_spec r w HS) as (w1 & E1 & HS1 & _).
    rewrite E1 in E. exact (IH _ _ HS1 (P_step _ _ _ HS HP E1) E).
Qed.

Lemma session_invariant p rs w :
  (forall w0, App_mount p = Ok w0 -> P w0) ->
  session p rs = Ok w -> P w.
Proof.
  intros H0 E. unfold session in E.
  destruct (App_mount_spec p) as (w0 & E0 & HS0 & _).
  rewrite E0 in E. exact (run_invariant rs _ _ HS0 (H0 _ E0) E).
Qed.
End RunInvariant.

(** ** Key presses in general *)

Lemma hit_key l s t k c :
  hit (keyEvent t k c) (ourListeners l s) = String.eqb c "Escape".
Proof. destruct l; cbn; rewrite orb_false_r; reflexivity. Qed.

Lemma dispatchEvent_general s w ev :
  Forall (usesSetter s) (listeners (dom w)) ->
  defaultPrevented ev = false ->
  dispatchEvent ev w
  = Ok (tt, cancelIf (isEscapeKeydown ev && negb (hit ev (listeners (dom w))))
                     (append_trace (listenerTrace ev (listeners (dom w)))
                                   (closeIf (hit ev (listeners (dom w))) s w))).
Proof.
  intros Hu Hd. unfold dispatchEvent, bind, gets.
  rewrite (callListeners_spec _ _ Hu). unfold defaultAction, cancelIf.
  destruct (hit ev (listeners (dom w))); cbn [mark negb].
  - change (isEscapeKeydown (handled ev)) with (isEscapeKeydown ev).
    cbn [handled defaultPrevented negb]. rewrite !andb_false_r. reflexivity.
  - rewrite Hd. cbn [negb]. rewrite andb_true_r.
    destruct (isEscapeKeydown ev); reflexivity.
Qed.

Lemma handleInput_afterInput i w :
  Settled w -> handleInput i w = Ok (tt, afterInput i w).
Proof.
  intros HS. destruct i as [r|t k c]; cbn [handleInput afterInput].
  - apply handle_afterHandle, HS.
  - apply dispatchEvent_general; [|reflexivity].
    apply (Pending_usesSetter _ _ _ _ (Settled_Pending _ HS)).
Qed.

Lemma cancelIf_false b w : b && open (dom w) = false -> cancelIf b w = w.
Proof. unfold cancelIf. intros ->. reflexivity. Qed.

(** The commit of a render that changes no dependency runs no effect. *)
Lemma ModalDialog_idle b l d d' p w :
  syncEffect w = Some (b, d) ->
  listenerEffect w = Some (l, setIsOpen p, d') ->
  nullish (controlledOpen p) (uncontrolledOpen w) = b ->
  lightDismissEnabled p = l ->
  ModalDialog p w
  = Ok (tt, with_forwardedRef (Some (mkRef b (setIsOpen p))) (with_props p w)).
Proof.
  intros Hs Hl Hb Hld.
  destruct w as [a dm p0 u r se le f t]. cbn in Hs, Hl, Hb. subst se le.
  unfold ModalDialog, bind, modify, gets, ret, isOpen. cbn.
  rewrite Hb. unfold lightDismissEnabled in Hld. rewrite Hld.
  unfold sync_changed, listener_changed.
  rewrite !Bool.eqb_reflx.
  assert (Hse : Setter_eqb (setIsOpen p) (setIsOpen p) = true)
    by (destruct (setIsOpen p) as [[]|]; reflexivity).
  rewrite Hse. cbn. reflexivity.
Qed.

Lemma deliverClose_listening l w :
  filter ours (listeners (dom w)) = ourListeners l (setIsOpen (props w)) ->
  deliverClose w
  = Ok (tt, append_trace (onCloseObs (onClose (props w))
                          ++ listenerTrace closeEvent (listeners (dom w))) w).
Proof.
  intros Ho.
  assert (Hu : Forall (usesSetter (setIsOpen (props w))) (listeners (dom w))).
  { apply usesSetter_of_filter. rewrite Ho. apply usesSetter_ourListeners. }
  assert (Hh : hit closeEvent (listeners (dom w)) = false).
  { rewrite hit_filter_ours, Ho. apply hit_close. }
  unfold deliverClose, bind, gets.
  destruct (onClose (props w)) as [cb|]; cbn [onCloseObs modify ret].
  - change (listeners (dom (log (OnClose cb) w))) with (listeners (dom w)).
    rewrite (callListeners_spec _ _ Hu), Hh. cbn [closeIf].
    rewrite append_trace_log. reflexivity.
  - rewrite (callListeners_spec _ _ Hu), Hh. reflexivity.
Qed.

(** Reconciliation after the platform cancelled an open dialog: no
    dependency changed, so no effect runs; the [close] event the element
    fired is delivered; [OpenState] is still true and the element is
    closed. *)
Lemma settle_cancelled w tr :
  Settled w ->
  isOpen w = true ->
  exists w2,
    settle (cancelIf true (append_trace tr w)) = Ok (tt, w2)
    /\ isOpen w2 = true
    /\ native_status w2 = false
    /\ forwardedRef w2 = forwardedRef w
    /\ props w2 = props w
    /\ trace w2
       = (trace w ++ tr ++ [NativeCancel] ++ onCloseObs (onClose (props w))
          ++ listenerTrace closeEvent (listeners (dom w)))%list.
Proof.
  intros HS Hb.
  pose proof (st_native _ HS) as Hn. rewrite Hb in Hn.
  pose proof (st_queue _ HS) as Hq.
  set (w1 := cancelIf true (append_trace tr w)).
  assert (Ew1 : w1 = log NativeCancel
                       (with_dom (mkDialog false (listeners (dom w)) 1)
                                 (append_trace tr w))).
  { unfold w1, cancelIf, close_element. cbn [append_trace dom andb].
    rewrite Hn, Hq. reflexivity. }
  assert (Hp : App_props w1 = props w).
  { rewrite Ew1. unfold App_props. cbn [log with_dom append_trace props app_isOpen].
    pose proof (st_cell _ HS) as Hc.
    destruct (props w) as [[c f|] sld io oc]; cbn in *; [subst c|]; reflexivity. }
  assert (Hm : ModalDialog (props w) w1
               = Ok (tt, with_forwardedRef (Some (mkRef true (setIsOpen (props w))))
                                           (with_props (props w) w1))).
  { apply ModalDialog_idle with (l := lightDismissEnabled (props w))
                                (d := Some the_dialog) (d' := Some the_dialog).
    - rewrite Ew1. cbn. rewrite (st_sync _ HS), Hb. reflexivity.
    - rewrite Ew1. cbn. apply (st_listener _ HS).
    - rewrite Ew1. exact Hb.
    - reflexivity. }
  eexists. split.
  { unfold settle, bind, App_render, gets. rewrite Hp, Hm.
    unfold deliverCloseEvents, bind, gets, modify. rewrite Ew1.
    cbn [with_forwardedRef with_props log with_dom append_trace dom closeEvents
         open listeners props app_isOpen uncontrolledOpen dialogRef syncEffect
         listenerEffect forwardedRef trace repeatM].
    unfold bind. rewrite (deliverClose_listening (lightDismissEnabled (props w)))
      by (exact (st_ours _ HS)).
    reflexivity. }
  cbn [append_trace with_forwardedRef with_props log with_dom dom open props
       uncontrolledOpen forwardedRef trace listeners onClose].
  repeat split.
  - exact Hb.
  - rewrite (st_handle _ HS), Hb. reflexivity.
  - rewrite <- !app_assoc. reflexivity.
Qed.

(** One input, from a settled world: what [OpenState], the element, the
    facade and the trace of native commands are afterwards. *)
Lemma stepInput_spec i w :
  Settled w ->
  exists w',
    exec (stepInput i) w = Ok w'
    /\ isOpen w' = requestedInput i w
    /\ native_status w'
       = (if platformCancels i w then false else requestedInput i w)
    /\ Ref_isOpen w' = Some (isOpen w')
    /\ essence (trace w')
       = (essence (trace w)
          ++ if platformCancels i w
             then [NativeCancel] ++ onCloseObs (onClose (props w'))
             else syncObs (isOpen w) (requestedInput i w)
                  ++ if isOpen w && negb (requestedInput i w)
                     then onCloseObs (onClose (props w')) else [])%list.
Proof.
  intros HS. destruct i as [r|t k c].
  - destruct (step_spec r w HS) as (w' & E & HS' & Ho & _ & _ & Hoc & Ht).
    exists w'. cbn [platformCancels requestedInput].
    split; [exact E|]. split; [exact Ho|].
    split; [rewrite Settled_native by assumption; exact Ho|].
    split; [unfold Ref_isOpen; rewrite (st_handle _ HS'); reflexivity|].
    rewrite Ht, Hoc. reflexivity.
  - pose proof (Settled_Pending _ HS) as HP.
    pose proof (handleInput_afterInput (KeyPress t k c) w HS) as E1.
    cbn [afterInput] in E1.
    assert (Hh : hit (keyEvent t k c) (listeners (dom w)) = String.eqb c "Escape").
    { rewrite hit_filter_ours, (st_ours _ HS). apply hit_key. }
    assert (He : isEscapeKeydown (keyEvent t k c) = String.eqb k "Escape")
      by reflexivity.
    rewrite Hh, He in E1.
    cbn [platformCancels requestedInput]. rewrite (Settled_native _ HS).
    destruct (isOpen w && String.eqb k "Escape" && negb (String.eqb c "Escape")) eqn:Hc.
    + (* the platform cancels *)
      apply andb_true_iff in Hc as [Hc Hcode]. apply andb_true_iff in Hc as [Hb Hkey].
      apply negb_true_iff in Hcode. rewrite Hkey, Hcode in E1.
      cbn [negb andb closeIf] in E1.
      destruct (settle_cancelled w
                  (listenerTrace (keyEvent t k c) (listeners (dom w))) HS Hb)
        as (w2 & E2 & Ho2 & Hn2 & Hf2 & Hp2 & Ht2).
      exists w2. split.
      { unfold exec, stepInput, bind. rewrite E1, E2. reflexivity. }
      rewrite Hcode. split; [congruence|]. split; [exact Hn2|].
      split; [unfold Ref_isOpen; rewrite Hf2, (st_handle _ HS), Ho2, Hb; reflexivity|].
      rewrite Ht2, Hp2, !essence_app, !essence_listenerTrace, app_nil_r.
      destruct (onClose (props w)); reflexivity.
    + (* the platform does not cancel *)
      assert (Hno : (String.eqb k "Escape" && negb (String.eqb c "Escape"))
                    && open (dom w) = false).
      { rewrite (st_native _ HS).
        destruct (isOpen w), (String.eqb k "Escape"), (String.eqb c "Escape");
          try reflexivity; discriminate Hc. }
      rewrite cancelIf_false in E1
        by (destruct (String.eqb c "Escape"), (setIsOpen (props w)) as [[]|]; exact Hno).
      set (w1 := append_trace (listenerTrace (keyEvent t k c) (listeners (dom w)))
                              (closeIf (String.eqb c "Escape") (setIsOpen (props w)) w))
        in *.
      assert (HP1 : Pending (isOpen w) (lightDismissEnabled (props w)) 0 w1)
        by (apply Pending_append_trace, Pending_closeIf, HP).
      assert (Ho1 : pendingOpen w1
                    = if String.eqb c "Escape" then false else isOpen w).
      { unfold w1. change (pendingOpen (append_trace ?t ?x)) with (pendingOpen x).
        rewrite pendingOpen_closeIf, (Settled_pendingOpen _ HS). reflexivity. }
      assert (Hp1 : onClose (props w1) = onClose (props w)).
      { unfold w1. destruct (String.eqb c "Escape"), (setIsOpen (props w)) as [[]|];
          reflexivity. }
      assert (Ht1 : essence (trace w1) = essence (trace w)).
      { unfold w1. change (trace (append_trace ?t ?x)) with (trace x ++ t)%list.
        rewrite essence_app, essence_listenerTrace, app_nil_r.
        destruct (String.eqb c "Escape"), (setIsOpen (props w)) as [[]|]; reflexivity. }
      destruct (settle_spec _ _ _ HP1) as (w2 & E2 & HS2 & Ho2 & Hp2 & Ht2).
      exists w2. split.
      { unfold exec, stepInput, bind. rewrite E1, E2. reflexivity. }
      split; [congruence|].
      split; [rewrite Settled_native by assumption; congruence|].
      split; [unfold Ref_isOpen; rewrite (st_handle _ HS2); reflexivity|].
      assert (Hoc2 : onClose (props w2) = onClose (props w)).
      { rewrite Hp2. unfold App_props. rewrite <- Hp1.
        destruct (isOpenProps (props w1)); reflexivity. }
      rewrite Ht2, Ht1, Ho1, Hp1, Hoc2. reflexivity.
Qed.

Lemma App_mount_cells p :
  exists w,
    App_mount p = Ok w
    /\ uncontrolledOpen w = nullish (initialOpen p) false
    /\ app_isOpen w = nullish (controlledOpen p) false
    /\ listeners (dom w) = ourListeners (lightDismissEnabled p) (setIsOpen p).
Proof.
  destruct p as [[c []|] sld io oc];
    try destruct c; destruct sld as [[]|], io as [[]|];
    (eexists; split; [vm_compute; reflexivity|]);
    repeat split; vm_compute; reflexivity.
Qed.

Lemma count_syncObs_cancel b n : count NativeCancel (syncObs b n) = 0.
Proof. destruct b, n; reflexivity. Qed.

Lemma count_onCloseObs cb oc :
  count (OnClose cb) (onCloseObs oc)
  = match oc with
    | Some c => if Nat.eqb cb c then 1 else 0
    | None => 0
    end.
Proof.
  destruct oc as [c|]; [|reflexivity].
  unfold count. cbn. destruct (Nat.eqb cb c); reflexivity.
Qed.


(** X2.  The element closes by itself exactly on a key press whose key
    value is "Escape" while its code is not, on an open dialog:
    [closeOnEscape] tests [event.code], so it does not prevent the default,
    the platform cancels, and afterwards [OpenState] is still true while
    the element is closed.  For every other key press the platform does
    not act: a press with code "Escape" is dismissed by the component
    (state false, element closed by the sync effect), any other press
    changes neither. *)
Theorem X2_platform_cancels_on_escape_key_with_other_code :
  forall p rs t k c,
  exists w w',
    session p rs = Ok w
    /\ exec (stepInput (KeyPress t k c)) w = Ok w'
    /\ count NativeCancel (trace w')
       = count NativeCancel (trace w)
         + (if isOpen w && String.eqb k "Escape" && negb (String.eqb c "Escape")
            then 1 else 0)
    /\ isOpen w' = (if String.eqb c "Escape" then false else isOpen w)
    /\ native_status w'
       = (if String.eqb c "Escape" || String.eqb k "Escape" then false else isOpen w).
Proof.
  intros p rs t k c. destruct (session_Settled p rs) as (w & E & HS).
  destruct (stepInput_spec (KeyPress t k c) w HS) as (w' & E' & Ho & Hn & _ & Ht).
  cbn [platformCancels requestedInput] in *.
  rewrite (Settled_native _ HS) in *.
  exists w, w'. split; [exact E|]. split; [exact E'|]. split; [|split].
  - rewrite (count_essence NativeCancel (trace w')) by reflexivity.
    rewrite (count_essence NativeCancel (trace w)) by reflexivity.
    rewrite Ht, count_app. f_equal.
    destruct (isOpen w && String.eqb k "Escape" && negb (String.eqb c "Escape")).
    + destruct (onClose (props w')); reflexivity.
    + rewrite count_app, count_syncObs_cancel.
      destruct (isOpen w && negb _); [|reflexivity].
      destruct (onClose (props w')); reflexivity.
  - exact Ho.
  - rewrite Hn.
    destruct (isOpen w), (String.eqb k "Escape"), (String.eqb c "Escape"); reflexivity.
Qed.

(** X3.  The component's listeners leave alone the events that are not
    dismissal gestures.  A click that fails the test of [lightDismiss]
    (light dismiss disabled, or a target that is not an element, or an
    element with another node name) gets neither [preventDefault] nor
    [stopPropagation] and calls no state setter: the world after the event
    differs only by the record of the ancestor's own listeners that ran.
    For a key press with a code other than "Escape", whatever its key
    value, the listeners on the element return the event as it came, not
    default-prevented, and leave the world alike. *)
Theorem X3_other_events_pass_through :
  forall p rs w,
    session p rs = Ok w ->
    (forall t,
        lightDismissEnabled (props w) && instanceofElement t
        && String.eqb (nodeName t) "DIALOG" = false ->
        exists tr, handle (Click t) w = Ok (tt, append_trace tr w)
                   /\ forallb isListenerCalled tr = true)
    /\ (forall t k c,
        String.eqb c "Escape" = false ->
        exists tr, callListeners (listeners (dom w)) (keyEvent t k c) w
                   = Ok (keyEvent t k c, append_trace tr w)
                   /\ forallb isListenerCalled tr = true).
Proof.
  intros p rs w E. pose proof (session_inv _ _ _ E) as HS.
  split.
  - intros t Ht.
    assert (Hh : hit (clickEvent t) (listeners (dom w)) = false).
    { rewrite hit_filter_ours, (st_ours _ HS), hit_click. exact Ht. }
    rewrite (handle_afterHandle _ _ HS). cbn [afterHandle]. rewrite Hh.
    eexists. split; [reflexivity|]. apply quiet_listenerTrace_no_hit, Hh.
  - intros t k c Hc.
    assert (Hh : hit (keyEvent t k c) (listeners (dom w)) = false).
    { rewrite hit_filter_ours, (st_ours _ HS), hit_key. exact Hc. }
    rewrite (callListeners_spec (setIsOpen (props w)))
      by (apply (Pending_usesSetter _ _ _ _ (Settled_Pending _ HS))).
    rewrite Hh. eexists. split; [reflexivity|].
    apply quiet_listenerTrace_no_hit, Hh.
Qed.

Lemma X3_witness :
  (exists tr, handle (Click (Descendant "BUTTON")) App_uncontrolled_open
              = Ok (tt, append_trace tr App_uncontrolled_open)
              /\ forallb isListenerCalled tr = true)
  /\ (exists tr, callListeners (listeners (dom App_uncontrolled_open))
                               (keyEvent (Descendant "INPUT") "Enter" "Enter")
                               App_uncontrolled_open
                 = Ok (keyEvent (Descendant "INPUT") "Enter" "Enter",
                       append_trace tr App_uncontrolled_open)
                 /\ forallb isListenerCalled tr = true).
Proof.
  destruct (X3_other_events_pass_through
              App_uncontrolled [Ref_showModal] App_uncontrolled_open
              ltac:(vm_compute; reflexivity)) as [H1 H2].
  split; [apply H1; reflexivity|apply H2; reflexivity].
Defined.

(** X5.  The answer of the facade's [isOpen()] never changes in the turn
    of an input: right after [showModal()], [close()], a click or any key
    press it still returns the [OpenState] of the last render, and follows
    only once the reconciliation has settled.  The element does not change
    in that turn either, with one exception: a key press with key value
    "Escape" on another code, on an open dialog, makes the platform close
    it at once, and it stays closed while [isOpen()] keeps answering
    true. *)
Theorem X5_isOpen_is_stale_until_rerender :
  forall p rs i,
  exists w w1 w2,
    session p rs = Ok w
    /\ handleInput i w = Ok (tt, w1)
    /\ Ref_isOpen w1 = Some (isOpen w)
    /\ native_status w1 = (if platformCancels i w then false else native_status w)
    /\ settle w1 = Ok (tt, w2)
    /\ Ref_isOpen w2 = Some (requestedInput i w)
    /\ native_status w2 = (if platformCancels i w then false else requestedInput i w).
Proof.
  intros p rs i. destruct (session_Settled p rs) as (w & E & HS).
  pose proof (handleInput_afterInput i w HS) as E1.
  destruct (stepInput_spec i w HS) as (w2 & E2 & Ho2 & Hn2 & Hf2 & _).
  assert (Es : settle (afterInput i w) = Ok (tt, w2)).
  { revert E2. unfold exec, stepInput, bind. rewrite E1.
    destruct (settle (afterInput i w)) as [[[] w2']|e]; congruence. }
  exists w, (afterInput i w), w2.
  split; [exact E|]. split; [exact E1|]. split; [|split; [|split; [exact Es|]]].
  - unfold Ref_isOpen.
    assert (Hf : forwardedRef (afterInput i w) = forwardedRef w).
    { destruct i as [r|t k c]; [apply afterHandle_frame|].
      cbn [afterInput]. unfold cancelIf.
      destruct (_ && open _), (hit _ _), (setIsOpen (props w)) as [[]|]; reflexivity. }
    rewrite Hf, (st_handle _ HS). reflexivity.
  - destruct i as [r|t k c]; cbn [platformCancels afterInput].
    + apply afterHandle_frame.
    + assert (Hh : hit (keyEvent t k c) (listeners (dom w)) = String.eqb c "Escape").
      { rewrite hit_filter_ours, (st_ours _ HS). apply hit_key. }
      rewrite Hh. change (isEscapeKeydown (keyEvent t k c)) with (String.eqb k "Escape").
      unfold native_status, cancelIf, close_element, closeIf, setVia, append_trace,
        with_app_isOpen, with_uncontrolledOpen.
      destruct (String.eqb k "Escape"), (String.eqb c "Escape"),
        (setIsOpen (props w)) as [[]|]; cbn;
        destruct (open (dom w)) eqn:Eo; cbn; rewrite ?Eo; reflexivity.
  - split; [congruence|exact Hn2].
Qed.

(** X6.  At mount [OpenState] is [isOpen ?? initialOpen], with [initialOpen]
    defaulting to false: in controlled mode the [isOpen] prop decides, also
    when it is false and [initialOpen] is true.  The element is opened by
    one native [showModal] exactly when [OpenState] is true, the facade
    answers with it, the component's listeners are in place, and mounting
    never faults. *)
Theorem X6_mount_state :
  forall p,
  exists w,
    App_mount p = Ok w
    /\ isOpen w = nullish (controlledOpen p) (nullish (initialOpen p) false)
    /\ native_status w = isOpen w
    /\ Ref_isOpen w = Some (isOpen w)
    /\ listeners (dom w) = ourListeners (lightDismissEnabled p) (setIsOpen p)
    /\ essence (trace w) = if isOpen w then [NativeShowModal] else [NativeClose].
Proof.
  intros p.
  destruct (App_mount_spec p) as (w & E & HS & Hp & Ht).
  destruct (App_mount_cells p) as (w' & E' & Hu & _ & Hls).
  rewrite E in E'. injection E' as <-.
  exists w. repeat split; try assumption.
  - unfold isOpen. rewrite Hp, Hu. reflexivity.
  - apply Settled_native, HS.
  - unfold Ref_isOpen. rewrite (st_handle _ HS). reflexivity.
Qed.

(** X7.  [onClose] belongs to the element's [close] event.  During a
    session it runs once each time the step of an input takes the element
    from open to closed, whether the sync effect closed it or the platform
    cancelled it, and never otherwise: not when the dialog opens, stays as
    it is, or was closed already.  The function called is the [onClose]
    prop of the last render.  Mounting calls nothing.  Unmounting is the
    exception: it closes an open element and [onClose] is not called. *)
Theorem X7_onClose_once_per_close :
  (forall p rs i,
      exists w w',
        session p rs = Ok w
        /\ exec (stepInput i) w = Ok w'
        /\ forall cb,
            count (OnClose cb) (trace w')
            = count (OnClose cb) (trace w)
              + if native_status w && negb (native_status w')
                then match onClose (props w') with
                     | Some c => if Nat.eqb cb c then 1 else 0
                     | None => 0
                     end
                else 0)
  /\ (forall p cb,
      exists w, App_mount p = Ok w /\ count (OnClose cb) (trace w) = 0)
  /\ (forall p rs,
      exists w wu,
        session p rs = Ok w
        /\ exec unmount w = Ok wu
        /\ native_status wu = false
        /\ forall cb, count (OnClose cb) (trace wu) = count (OnClose cb) (trace w)).
Proof.
  split; [|split].
  - intros p rs i. destruct (session_Settled p rs) as (w & E & HS).
    destruct (stepInput_spec i w HS) as (w' & E' & Ho & Hn & _ & Ht).
    exists w, w'. split; [exact E|]. split; [exact E'|].
    intros cb.
    rewrite (count_essence (OnClose cb) (trace w')) by reflexivity.
    rewrite (count_essence (OnClose cb) (trace w)) by reflexivity.
    rewrite Ht, count_app, Hn, (Settled_native _ HS). f_equal.
    destruct (platformCancels i w) eqn:Hc.
    + assert (Hb : isOpen w = true).
      { destruct i as [r|t k c]; [discriminate Hc|].
        cbn [platformCancels] in Hc. rewrite (Settled_native _ HS) in Hc.
        destruct (isOpen w); [reflexivity|discriminate Hc]. }
      rewrite Hb, count_app, count_onCloseObs. reflexivity.
    + rewrite count_app.
      assert (Hs : count (OnClose cb) (syncObs (isOpen w) (requestedInput i w)) = 0).
      { destruct (isOpen w), (requestedInput i w); reflexivity. }
      rewrite Hs.
      destruct (isOpen w && negb (requestedInput i w)); [|reflexivity].
      rewrite count_onCloseObs. reflexivity.
  - intros p cb. destruct (App_mount_spec p) as (w & E & _ & _ & Ht).
    exists w. split; [exact E|].
    rewrite (count_essence (OnClose cb) (trace w)) by reflexivity.
    rewrite Ht. destruct (isOpen w); reflexivity.
  - intros p rs. destruct (session_Settled p rs) as (w & E & HS).
    destruct (unmount_spec w HS) as (wu & Eu & Hn & _ & _ & _ & Ht).
    exists w, wu. split; [exact E|]. split; [exact Eu|]. split; [exact Hn|].
    intros cb.
    rewrite (count_essence (OnClose cb) (trace wu)) by reflexivity.
    rewrite (count_essence (OnClose cb) (trace w)) by reflexivity.
    rewrite Ht, count_app. cbn. lia.
Qed.

Lemma unmount_frame w :
  Settled w ->
  exists w',
    exec unmount w = Ok w'
    /\ filter theirs (listeners (dom w')) = filter theirs (listeners (dom w))
    /\ forwardedRef w' = None.
Proof.
  intros [Href Hcell Hsync Hnat Hlis Hf Hours Hq].
  destruct w as [a [o ls q] [iop sld io oc] u r se le f t].
  unfold isOpen, lightDismissEnabled, setIsOpen in *.
  cbn in Href, Hcell, Hsync, Hnat, Hlis, Hf, Hours, Hq. subst.
  destruct iop as [c []|], sld as [[]|]; try destruct c; try destruct u;
    cbv -[register unregister filter ours theirs app].
  all: eexists; split; [reflexivity|].
  all: cbn -[register unregister filter ours theirs app].
  all: split; [|reflexivity].
  all: rewrite ?filter_theirs_unregister by reflexivity; reflexivity.
Qed.

(** X4.  The component's own registrations on the element are accounted
    for at every moment of a session: [closeOnEscape] for [keydown] once,
    [lightDismiss] for [click] once exactly when light dismiss is enabled,
    nothing else and no duplicate, whatever was toggled before.  The
    component never removes or reorders a listener an ancestor added
    through the ref, and unmounting leaves exactly those on the element. *)
Theorem X4_listeners_accounted_for :
  forall p rs w,
    session p rs = Ok w ->
    filter ours (listeners (dom w))
    = ourListeners (lightDismissEnabled (props w)) (setIsOpen (props w))
    /\ (forall r,
        isListenerRequest r = false ->
        exists w', exec (step r) w = Ok w'
                   /\ filter theirs (listeners (dom w'))
                      = filter theirs (listeners (dom w)))
    /\ (exists wu, exec unmount w = Ok wu
                   /\ listeners (dom wu) = filter theirs (listeners (dom w))).
Proof.
  intros p rs w E. pose proof (session_inv _ _ _ E) as HS.
  split; [exact (st_ours _ HS)|]. split.
  - intros r Hr.
    destruct (step_frame r w HS) as (w' & E' & _ & _ & _ & _ & _ & Hth & _).
    exists w'. split; [exact E'|]. apply Hth, Hr.
  - destruct (unmount_spec w HS) as (wu & Eu & _ & _ & Ho & _).
    destruct (unmount_frame w HS) as (wu' & Eu' & Hth & _).
    rewrite Eu in Eu'. injection Eu' as <-.
    exists wu. split; [exact Eu|].
    rewrite <- Hth. symmetry. apply filter_ours_nil_theirs, Ho.
Qed.

Lemma X4_witness :
  filter ours (listeners (dom App_controlled_open_strict))
  = ourListeners false (FromProps App_setIsOpen)
  /\ exists w',
      exec (step (App_setAttributes (Some true) None)) App_controlled_open_strict = Ok w'
      /\ filter theirs (listeners (dom w'))
         = filter theirs (listeners (dom App_controlled_open_strict)).
Proof.
  destruct (X4_listeners_accounted_for
              App_controlled
              [App_setState true; App_setAttributes (Some false) (Some App_onClose)]
              App_controlled_open_strict ltac:(vm_compute; reflexivity))
    as (H1 & H2 & _).
  split; [exact H1|]. apply H2. reflexivity.
Defined.

(** X8.  The mode of an instance never changes during a session, and the
    two state cells stay apart.  In controlled mode the component never
    writes its internal [useState] cell, which keeps its [initialOpen]
    seed, and App's cell always equals [OpenState].  In uncontrolled mode
    [OpenState] is the internal cell, and a change of App's state has no
    effect on the dialog. *)
Theorem X8_controlled_and_uncontrolled_cells :
  forall p rs w,
    session p rs = Ok w ->
    controlled (props w) = controlled p
    /\ (controlled p = true ->
        app_isOpen w = isOpen w
        /\ uncontrolledOpen w = nullish (initialOpen p) false)
    /\ (controlled p = false ->
        uncontrolledOpen w = isOpen w
        /\ forall v,
            exists w', exec (step (App_setState v)) w = Ok w'
                       /\ isOpen w' = isOpen w
                       /\ native_status w' = native_status w
                       /\ essence (trace w') = essence (trace w)).
Proof.
  intros p rs w E. pose proof (session_inv _ _ _ E) as HS.
  assert (HI : controlled (props w) = controlled p
               /\ (controlled p = true ->
                   uncontrolledOpen w = nullish (initialOpen p) false)).
  { apply (session_invariant
             (fun w => controlled (props w) = controlled p
                       /\ (controlled p = true ->
                           uncontrolledOpen w = nullish (initialOpen p) false)))
      with (p := p) (rs := rs); [| |exact E].
    - intros r w0 w' HS0 [Hc0 Hu0] E0.
      destruct (step_frame r w0 HS0) as (w2 & E2 & _ & _ & Hc & _ & Hu & _).
      rewrite E0 in E2. injection E2 as <-.
      split; [congruence|]. intros Hp. rewrite Hu by congruence. apply Hu0, Hp.
    - intros w0 E0.
      destruct (App_mount_spec p) as (w1 & E1 & _ & Hp1 & _).
      destruct (App_mount_cells p) as (w2 & E2 & Hu2 & _).
      rewrite E0 in E1, E2. injection E1 as <-. injection E2 as <-.
      split; [rewrite Hp1; reflexivity|]. intros _. exact Hu2. }
  destruct HI as [Hc Hu]. split; [exact Hc|]. split.
  - intros Hp. split; [|apply Hu, Hp].
    pose proof (st_cell _ HS) as Hcell. rewrite <- Hc in Hp.
    unfold controlled in Hp. unfold isOpen, controlledOpen.
    destruct (isOpenProps (props w)); [|discriminate]. cbn. congruence.
  - intros Hp. rewrite <- Hc in Hp. unfold controlled in Hp.
    assert (Hm : isOpenProps (props w) = UncontrolledProps).
    { destruct (isOpenProps (props w)); [discriminate|reflexivity]. }
    split.
    + unfold isOpen, controlledOpen. rewrite Hm. reflexivity.
    + intros v. destruct (step_idle (App_setState v) w HS) as (w' & E' & _ & H).
      { cbn [requested]. rewrite Hm. reflexivity. }
      exists w'. split; [exact E'|exact H].
Qed.

Lemma X8_witness :
  uncontrolledOpen App_uncontrolled_open = isOpen App_uncontrolled_open
  /\ exists w', exec (step (App_setState false)) App_uncontrolled_open = Ok w'
                /\ isOpen w' = isOpen App_uncontrolled_open
                /\ native_status w' = native_status App_uncontrolled_open
                /\ essence (trace w') = essence (trace App_uncontrolled_open).
Proof.
  destruct (X8_controlled_and_uncontrolled_cells
              App_uncontrolled [Ref_showModal] App_uncontrolled_open
              ltac:(vm_compute; reflexivity)) as (_ & _ & H).
  destruct (H eq_refl) as [H1 H2]. split; [exact H1|apply H2].
Defined.




(** ** Listeners added through the ref *)

Lemma Registration_eqb_refl r : Registration_eqb r r = true.
Proof.
  unfold Registration_eqb. rewrite String.eqb_refl, Bool.eqb_reflx.
  destruct (reg_listener r) as [[[]|]|[[]|]|c]; cbn; rewrite ?Nat.eqb_refl; reflexivity.
Qed.

Lemma registered_register r ls : registered r (register r ls) = true.
Proof.
  unfold register. destruct (registered r ls) eqn:E; [exact E|].
  unfold registered. rewrite existsb_app. cbn.
  rewrite Registration_eqb_refl, orb_true_r. reflexivity.
Qed.

Lemma unregister_register_fresh r ls :
  registered r ls = false -> unregister r (register r ls) = ls.
Proof.
  intros H. unfold register. rewrite H. unfold registered in H.
  induction ls as [|x rest IH].
  - cbn. unfold unregister. rewrite Registration_eqb_refl. reflexivity.
  - cbn in H. apply orb_false_iff in H as [Hx Hrest].
    cbn [app]. unfold unregister; fold unregister.
    rewrite Hx, (IH Hrest). reflexivity.
Qed.


(** X10.  Adding a listener through the ref and removing it again with the
    same arguments is a round trip: when the listener was not registered
    before, it is on the element after [addEventListener], and after
    [removeEventListener] the element's listeners are exactly as they
    were.  Neither call changes [OpenState]. *)
Theorem X10_ref_listener_round_trip :
  forall p rs w name cb opt,
    session p rs = Ok w ->
    registered (mkReg name (AncestorListener cb) (nullish opt false))
               (listeners (dom w)) = false ->
    exists w1 w2,
      exec (step (Ref_addEventListener name cb opt)) w = Ok w1
      /\ registered (mkReg name (AncestorListener cb) (nullish opt false))
                    (listeners (dom w1)) = true
      /\ isOpen w1 = isOpen w
      /\ exec (step (Ref_removeEventListener name cb opt)) w1 = Ok w2
      /\ listeners (dom w2) = listeners (dom w)
      /\ isOpen w2 = isOpen w.
Proof.
  intros p rs w name cb opt E Hfresh. pose proof (session_inv _ _ _ E) as HS.
  destruct (step_frame (Ref_addEventListener name cb opt) w HS)
    as (w1 & E1 & HS1 & Ho1 & _ & _ & _ & _ & Hls1 & _).
  destruct (step_frame (Ref_removeEventListener name cb opt) w1 HS1)
    as (w2 & E2 & _ & Ho2 & _ & _ & _ & _ & Hls2 & _).
  specialize (Hls1 eq_refl). specialize (Hls2 eq_refl).
  cbn [afterHandle dom with_dom log listeners] in Hls1, Hls2.
  cbn [requested] in Ho1, Ho2.
  exists w1, w2. split; [exact E1|]. split.
  { rewrite Hls1. apply registered_register. }
  split; [exact Ho1|]. split; [exact E2|]. split.
  - rewrite Hls2, Hls1. apply unregister_register_fresh, Hfresh.
  - congruence.
Qed.

Lemma X10_witness :
  exists w1 w2,
    exec (step (Ref_addEventListener "close" 5 None)) App_uncontrolled_open = Ok w1
    /\ registered (mkReg "close" (AncestorListener 5) false) (listeners (dom w1)) = true
    /\ isOpen w1 = isOpen App_uncontrolled_open
    /\ exec (step (Ref_removeEventListener "close" 5 None)) w1 = Ok w2
    /\ listeners (dom w2) = listeners (dom App_uncontrolled_open)
    /\ isOpen w2 = isOpen App_uncontrolled_open.
Proof.
  apply (X10_ref_listener_round_trip
           App_uncontrolled [Ref_showModal] App_uncontrolled_open "close" 5 None);
    vm_compute; reflexivity.
Defined.



Lemma setIsOpen_controlled p q :
  controlled p = controlled q -> setIsOpen p = setIsOpen q.
Proof.
  unfold controlled, setIsOpen, setControlledOpen.
  destruct (isOpenProps p) as [? []|], (isOpenProps q) as [? []|];
    reflexivity || discriminate.
Qed.

(** X12.  Re-rendering the dialog with other attributes never opens or
    closes it.  A change of [shouldLightDismiss] or [onClose] re-runs the
    listener effect only: [OpenState] and the element's open status are
    unchanged, no native open or close is issued (the sync effect and its
    closing clean-up do not run), [onClose] is not called, and afterwards
    the component's listeners are those of the new [shouldLightDismiss]. *)
Theorem X12_attributes_do_not_touch_open_state :
  forall p rs sld oc,
  exists w w',
    session p rs = Ok w
    /\ exec (step (App_setAttributes sld oc)) w = Ok w'
    /\ isOpen w' = isOpen w
    /\ native_status w' = native_status w
    /\ essence (trace w') = essence (trace w)
    /\ shouldLightDismiss (props w') = sld
    /\ onClose (props w') = oc
    /\ filter ours (listeners (dom w'))
       = ourListeners (nullish sld true) (setIsOpen (props w)).
Proof.
  intros p rs sld oc. destruct (session_Settled p rs) as (w & E & HS).
  destruct (step_spec (App_setAttributes sld oc) w HS)
    as (w' & E' & HS' & Ho & _ & Hsld & Hoc & Ht).
  destruct (step_frame (App_setAttributes sld oc) w HS)
    as (w2 & E2 & _ & _ & Hc & _).
  rewrite E' in E2. injection E2 as <-.
  cbn [requested attributesAfter shouldLightDismiss onClose] in *.
  exists w, w'. repeat split; try assumption.
  - rewrite !Settled_native by assumption. exact Ho.
  - rewrite Ht, syncObs_same, andb_negb_r. cbn. apply app_nil_r.
  - rewrite (st_ours _ HS'). unfold lightDismissEnabled. rewrite Hsld.
    rewrite (setIsOpen_controlled _ _ Hc). reflexivity.
Qed.
